(** * New York population dashboard: the transform pipeline of [main.py]

    The script loads the Census NST-EST2019 table, keeps the state rows,
    melts the [POPESTIMATE20xx] columns into tidy (state, year, population)
    observations and derives the New York series (national total, rank,
    share, year-over-year change), the summary scalars (peak, CAGR) and the
    comparison frame.  This file embeds that pipeline and proves the
    properties the specification states about it.

    Conventions of the embedding.
    - An [int64] column is a list of [Z]; the integer arithmetic done on
      such columns (the group sum, the subtraction inside [diff], the
      absolute change) has its wrap-around written out ([wrap64]).
    - A [float64] value is modelled up to rounding: a finite value is an
      exact real, and the three special values +inf, -inf and NaN are kept,
      with the IEEE rules for them.  A finite result never overflows (the
      operands are int64 populations, their quotients and a factor 100).
      Zero is unsigned: every zero divisor in the script is the conversion
      of the integer 0, which is +0.0.
    - Where the script stores or reads back an integer through a float64
      and the statement is about the exact value (the changes of [diff],
      the peak read from a float64 row), the conversion is written out
      with its rounding to 53 bits ([round53], [to_float64]).
    - A column label is a string of one-byte characters; on ASCII labels,
      which is what the Census file has, the digit test and the year
      conversion are Python's.
    - A pandas operation that raises is [None]. *)

From Stdlib Require Import List ZArith String Ascii Bool Lia.
From Stdlib Require Import Reals Lra.
From Stdlib Require Import Permutation Sorted.
From Stdlib Require Import DecimalString.
From Stdlib Require SpecFloat.
Import ListNotations.
Open Scope Z_scope.

(* ------------------------------------------------------------------ *)
(** ** float64, up to rounding *)

Module F64.

Inductive t : Type :=
| Fin (x : R)
| PInf
| NInf
| NaN.

(** Sign of a finite value, as the comparison with zero. *)
Definition sgn (x : R) : comparison :=
  match total_order_T x 0 with
  | inleft (left _) => Lt
  | inleft (right _) => Eq
  | inright _ => Gt
  end.

(** An infinity of the given sign; a zero sign is the invalid operation. *)
Definition inf_of (s : comparison) : t :=
  match s with Gt => PInf | Lt => NInf | Eq => NaN end.

Definition flip (s : comparison) : comparison := CompOpp s.

(** int64 -> float64 conversion ([astype(float)], implicit in [/] and
    [diff]). *)
Definition of_int (z : Z) : t := Fin (IZR z).

(** A column cell that may be missing after a left join: missing is NaN. *)
Definition of_opt (o : option Z) : t :=
  match o with Some z => of_int z | None => NaN end.

Definition add (a b : t) : t :=
  match a, b with
  | NaN, _ | _, NaN => NaN
  | Fin x, Fin y => Fin (x + y)
  | PInf, NInf | NInf, PInf => NaN
  | PInf, _ | _, PInf => PInf
  | NInf, _ | _, NInf => NInf
  end.

Definition opp (a : t) : t :=
  match a with
  | Fin x => Fin (- x)
  | PInf => NInf
  | NInf => PInf
  | NaN => NaN
  end.

Definition sub (a b : t) : t := add a (opp b).

Definition mul (a b : t) : t :=
  match a, b with
  | NaN, _ | _, NaN => NaN
  | Fin x, Fin y => Fin (x * y)
  | Fin x, PInf | PInf, Fin x => inf_of (sgn x)
  | Fin x, NInf | NInf, Fin x => inf_of (flip (sgn x))
  | PInf, PInf | NInf, NInf => PInf
  | PInf, NInf | NInf, PInf => NaN
  end.

(** True division.  A finite value over zero is an infinity of the
    numerator's sign, 0/0 is NaN; neither raises (numpy only warns). *)
Definition div (a b : t) : t :=
  match a, b with
  | NaN, _ | _, NaN => NaN
  | Fin x, Fin y =>
      match sgn y with
      | Eq => inf_of (sgn x)
      | _ => Fin (x / y)
      end
  | Fin _, PInf | Fin _, NInf => Fin 0
  | PInf, Fin y =>
      match sgn y with Lt => NInf | _ => PInf end
  | NInf, Fin y =>
      match sgn y with Lt => PInf | _ => NInf end
  | _, _ => NaN
  end.

(** [pow a y] for a finite exponent [0 < y] that is not an integer (the
    script only raises to [1/9]): the root of a negative number is NaN, of
    zero is zero, of either infinity is +inf. *)
Definition pow (a : t) (y : R) : t :=
  match a with
  | NaN => NaN
  | PInf | NInf => PInf
  | Fin x =>
      match sgn x with
      | Gt => Fin (Rpower x y)
      | Eq => Fin 0
      | Lt => NaN
      end
  end.


End F64.

(* ------------------------------------------------------------------ *)
(** ** The raw table and the reshaper *)

(** A row of the CSV: the three identifying columns the script reads by
    name, and the remaining integer cells in column order. *)
Record raw_row : Type := mk_raw_row {
  SUMLEV : Z;
  NAME : string;
  STATE : Z;
  cells : list Z
}.

(** [columns] are the labels of the [cells], in order.  The identifying
    columns are not listed: none of their labels starts with
    [POPESTIMATE20], so none is ever a population column. *)
Record raw_table : Type := mk_raw_table {
  columns : list string;
  rows : list raw_row
}.

(** [df_raw[df_raw['SUMLEV'] == 40]] *)
Definition df_states (df_raw : raw_table) : list raw_row :=
  filter (fun r => SUMLEV r =? 40) (rows df_raw).

(** [[c for c in df_states.columns if c.startswith('POPESTIMATE20')]],
    each label with the position of its cell. *)
Definition pop_cols (df_raw : raw_table) : list (nat * string) :=
  filter (fun ic => String.prefix "POPESTIMATE20" (snd ic))
         (combine (seq 0 (List.length (columns df_raw))) (columns df_raw)).

(** The digit class of the pattern, on one-byte characters: 0 to 9.
    Python's class also holds the decimal digits of other scripts, which
    need code points past one byte; an ASCII label has none. *)
Definition is_digit (c : ascii) : bool :=
  ((48 <=? nat_of_ascii c) && (nat_of_ascii c <=? 57))%nat.

(** A label made of ASCII characters only. *)
Fixpoint ascii_label (s : string) : bool :=
  match s with
  | EmptyString => true
  | String c s' => (nat_of_ascii c <? 128)%nat && ascii_label s'
  end.

Definition digit_val (c : ascii) : Z := Z.of_nat (nat_of_ascii c) - 48.

(** [str.extract(r'(\d{4})')]: the leftmost run of four digits, if any. *)
Fixpoint extract4 (s : string) : option (ascii * ascii * ascii * ascii) :=
  match s with
  | EmptyString => None
  | String a tl =>
      match tl with
      | String b (String c (String d _)) =>
          if is_digit a && is_digit b && is_digit c && is_digit d
          then Some (a, b, c, d)
          else extract4 tl
      | _ => None
      end
  end.

(** [.str.extract(r'(\d{4})').astype(int)] on one label; [None] when the
    pattern does not match (the conversion of the missing value raises). *)
Definition year_of_label (s : string) : option Z :=
  match extract4 s with
  | Some (a, b, c, d) =>
      Some (1000 * digit_val a + 100 * digit_val b + 10 * digit_val c + digit_val d)
  | None => None
  end.

(** A row of the melted frame, before the year is parsed. *)
Record melted : Type := mk_melted {
  m_NAME : string;
  m_STATE : Z;
  m_variable : string;
  m_value : Z
}.

(** [df_states[keep_cols].melt(id_vars=['NAME','STATE'], ...)]: column by
    column, and within a column row by row. *)
Definition melt (cols : list (nat * string)) (rs : list raw_row) : list melted :=
  flat_map
    (fun ic => map (fun r => mk_melted (NAME r) (STATE r) (snd ic) (nth (fst ic) (cells r) 0)) rs)
    cols.

(** A tidy observation: a row of [df_long]. *)
Module Obs.
Record t : Type := mk {
  state : string;
  code : Z;
  year : Z;
  population : Z
}.
End Obs.

Definition parse_year (m : melted) : option Obs.t :=
  match year_of_label (m_variable m) with
  | Some y => Some (Obs.mk (m_NAME m) (m_STATE m) y (m_value m))
  | None => None
  end.

(** All-or-nothing map: one failing row fails the column conversion. *)
Fixpoint traverse {A B : Type} (f : A -> option B) (l : list A) : option (list B) :=
  match l with
  | [] => Some []
  | a :: l' =>
      match f a, traverse f l' with
      | Some b, Some bs => Some (b :: bs)
      | _, _ => None
      end
  end.

(** [df_long], lines 30-35 of the script. *)
Definition df_long (df_raw : raw_table) : option (list Obs.t) :=
  traverse parse_year (melt (pop_cols df_raw) (df_states df_raw)).

(* ------------------------------------------------------------------ *)
(** ** Frame operations used by the script *)

(** int64 wrap-around of an exact integer result. *)
Definition wrap64 (z : Z) : Z := (z + 2 ^ 63) mod 2 ^ 64 - 2 ^ 63.

(** The nearest integer to [num / den] for [0 < den], halves to the even one. *)
Definition round_half_even (num den : Z) : Z :=
  let q := num / den in
  let r2 := 2 * (num mod den) in
  if r2 <? den then q
  else if den <? r2 then q + 1
  else if Z.even q then q else q + 1.

(** The integer a float64 holds after the conversion of the integer [z]:
    [z] itself up to magnitude 2^53, and beyond that the nearest multiple
    of the spacing of 53-bit numbers at its size, halves to the even
    mantissa.  (No int64 is large enough to overflow a float64.) *)
Definition round53 (z : Z) : Z :=
  if Z.abs z <? 2 ^ 53 then z
  else
    let u := 2 ^ (Z.log2 (Z.abs z) - 52) in
    round_half_even z u * u.

(** int64 -> float64 conversion, rounding included. *)
Definition to_float64 (z : Z) : F64.t := F64.of_int (round53 z).

(** The value of a binary64 number of the standard library, when it is an
    integer. *)
Definition value_of_binary64 (f : SpecFloat.spec_float) : option Z :=
  match f with
  | SpecFloat.S754_zero _ => Some 0
  | SpecFloat.S754_finite sg m e =>
      if 0 <=? e then Some ((if sg then -1 else 1) * Z.pos m * 2 ^ e)
      else if Z.pos m mod 2 ^ (- e) =? 0
           then Some ((if sg then -1 else 1) * (Z.pos m / 2 ^ (- e)))
           else None
  | _ => None
  end.

(** [sort_values]: the rows in the order [leb].  Rows with equal keys keep
    their order here; pandas leaves that to the sort kind, and the frames
    the script sorts have distinct keys when (state, year) is a key. *)
Fixpoint insert_by {A : Type} (leb : A -> A -> bool) (x : A) (l : list A) : list A :=
  match l with
  | [] => [x]
  | y :: l' => if leb x y then x :: l else y :: insert_by leb x l'
  end.

Definition sort_by {A : Type} (leb : A -> A -> bool) (l : list A) : list A :=
  fold_right (insert_by leb) [] l.

(** The keys of [groupby('year')]: the distinct years, ascending. *)
Definition group_keys (ys : list Z) : list Z :=
  sort_by Z.leb (nodup Z.eq_dec ys).

(** The rows of one year group. *)
Definition year_group (y : Z) (l : list Obs.t) : list Obs.t :=
  filter (fun o => Obs.year o =? y) l.

Definition total (vs : list Z) : Z := fold_right Z.add 0 vs.

(** A row of [us]. *)
Module Us.
Record t : Type := mk {
  year : Z;
  us_population : Z
}.
End Us.

(** [df_long.groupby('year', as_index=False)['population'].sum()], lines
    43-47: one row per year, the int64 sum of the group. *)
Definition us (l : list Obs.t) : list Us.t :=
  map (fun y => Us.mk y (wrap64 (total (map Obs.population (year_group y l)))))
      (group_keys (map Obs.year l)).

(** Position of the first occurrence of [v]. *)
Fixpoint first_index (v : Z) (l : list Z) : nat :=
  match l with
  | [] => O
  | x :: l' => if x =? v then O else S (first_index v l')
  end.

(** [rank(ascending=False, method='min')] of the value [v] in a group [vs]:
    the values are ordered largest first, positions count from 1, and tied
    values all take the lowest position of their run.  (pandas returns the
    rank as a float64; it is always a whole number, kept as an integer.) *)
Definition rank_min_desc (vs : list Z) (v : Z) : Z :=
  1 + Z.of_nat (first_index v (sort_by (fun a b => b <=? a) vs)).

(** The cell of [df_long['rank']] (line 50) in the row [o]. *)
Definition rank (l : list Obs.t) (o : Obs.t) : Z :=
  rank_min_desc (map Obs.population (year_group (Obs.year o) l)) (Obs.population o).

(** [merge(right, on='year', how='left')]: every left row, in order, once
    per matching right row, or once with the right columns missing. *)
Definition merge_left {A B C : Type} (kl : A -> Z) (kr : B -> Z)
    (join : A -> option B -> C) (left : list A) (right : list B) : list C :=
  flat_map
    (fun a =>
       match filter (fun b => kr b =? kl a) right with
       | [] => [join a None]
       | bs => map (fun b => join a (Some b)) bs
       end)
    left.

(** [shift(1)] of a float column. *)
Definition shift (c : list F64.t) : list F64.t :=
  match c with
  | [] => []
  | _ :: _ => F64.NaN :: removelast c
  end.

(** An int64 column, converted to float64, combined cell by cell with its
    own shift. *)
Definition with_shift (g : F64.t -> F64.t -> F64.t) (c : list Z) : list F64.t :=
  let f := map F64.of_int c in
  map (fun ab => g (fst ab) (snd ab)) (combine f (shift f)).

(** [Series.diff()] of an int64 column: no value in the first cell, and in
    every later cell the cell minus the cell before it, subtracted in
    int64 and then stored in the float64 result column. *)
Definition diff (c : list Z) : list F64.t :=
  match c with
  | [] => []
  | _ :: rest =>
      F64.NaN
        :: map (fun ab => to_float64 (wrap64 (fst ab - snd ab))) (combine rest c)
  end.

(** [Series.pct_change()]: [c / c.shift(1) - 1]. *)
Definition pct_change (c : list Z) : list F64.t :=
  with_shift (fun a b => F64.sub (F64.div a b) (F64.Fin 1)) c.

(* ------------------------------------------------------------------ *)
(** ** The focus-state series *)

(** A row of [ny] after the two merges of line 54. *)
Module Ny.
Record t : Type := mk {
  year : Z;
  population : Z;
  us_population : option Z;
  rank : option Z
}.
End Ny.

Section Focus.

(** The script fixes the focus state to ['New York']; the derivation is
    the same for any name. *)
Variable focus : string.

(** Line 40: the focus rows, [['year','population']], sorted by year. *)
Definition focus_sorted (l : list Obs.t) : list (Z * Z) :=
  sort_by (fun a b => fst a <=? fst b)
    (map (fun o => (Obs.year o, Obs.population o))
         (filter (fun o => String.eqb (Obs.state o) focus) l)).

(** Line 51: [['year','rank']] of the focus rows. *)
Definition focus_rank (l : list Obs.t) : list (Z * Z) :=
  map (fun o => (Obs.year o, rank l o))
      (filter (fun o => String.eqb (Obs.state o) focus) l).

(** Line 54. *)
Definition focus_merged (l : list Obs.t) : list Ny.t :=
  merge_left (fun a => fst (fst a)) fst
    (fun a b => Ny.mk (fst (fst a)) (snd (fst a)) (snd a) (option_map snd b))
    (merge_left fst Us.year
       (fun a b => (a, option_map Us.us_population b))
       (focus_sorted l) (us l))
    (focus_rank l).

End Focus.

Definition ny_sorted : list Obs.t -> list (Z * Z) := focus_sorted "New York".
Definition ny_rank : list Obs.t -> list (Z * Z) := focus_rank "New York".
Definition ny : list Obs.t -> list Ny.t := focus_merged "New York".

(** Line 55: [(population / us_population) * 100], row by row. *)
Definition share_row (r : Ny.t) : F64.t :=
  F64.mul (F64.div (F64.of_int (Ny.population r)) (F64.of_opt (Ny.us_population r)))
          (F64.Fin 100).

Definition share_of_us (s : list Ny.t) : list F64.t := map share_row s.

(** Lines 58-59. *)
Definition yoy_change (s : list Ny.t) : list F64.t :=
  diff (map Ny.population s).

Definition yoy_pct (s : list Ny.t) : list F64.t :=
  map (fun x => F64.mul x (F64.Fin 100)) (pct_change (map Ny.population s)).

(* ------------------------------------------------------------------ *)
(** ** Summary scalars *)

(** [s.loc[s['year'] == y, 'population'].iloc[0]]; [None] is the
    [IndexError] of [iloc[0]] on an empty selection. *)
Definition loc_population (y : Z) (s : list Ny.t) : option Z :=
  hd_error (map Ny.population (filter (fun r => Ny.year r =? y) s)).

Definition base_pop (s : list Ny.t) : option Z := loc_population 2010 s.
Definition last_pop (s : list Ny.t) : option Z := loc_population 2019 s.
Definition years_span : Z := 9.

(** Line 65 on the two scalars. *)
Definition cagr_of (base last : Z) : F64.t :=
  F64.mul
    (F64.sub (F64.pow (F64.div (F64.of_int last) (F64.of_int base)) (1 / IZR years_span))
             (F64.Fin 1))
    (F64.Fin 100).

Definition cagr (s : list Ny.t) : option F64.t :=
  match base_pop s, last_pop s with
  | Some b, Some e => Some (cagr_of b e)
  | _, _ => None
  end.

(** [idxmax]: the first row holding the largest population. *)
Fixpoint idxmax_from (best : Ny.t) (s : list Ny.t) : Ny.t :=
  match s with
  | [] => best
  | r :: s' =>
      if Ny.population best <? Ny.population r
      then idxmax_from r s'
      else idxmax_from best s'
  end.

(** Line 67; [None] is the [ValueError] of [idxmax] on an empty series.
    The frame has a fresh 0..n-1 index after the merges, so the label
    [idxmax] returns is the position of the row. *)
Definition peak_row (s : list Ny.t) : option Ny.t :=
  match s with
  | [] => None
  | r :: s' => Some (idxmax_from r s')
  end.

(** Lines 68-69.  [ny.loc[...]] returns the row as one float64 series
    (the frame has integer and float columns), so [int(peak_row[...])]
    reads each integer back from its float64. *)
Definition peak_pop (s : list Ny.t) : option Z :=
  option_map (fun r => round53 (Ny.population r)) (peak_row s).
Definition peak_year (s : list Ny.t) : option Z :=
  option_map (fun r => round53 (Ny.year r)) (peak_row s).

(* ------------------------------------------------------------------ *)
(** ** The comparison frame *)

Module Cmp.
Record t : Type := mk {
  state : string;
  year : Z;
  population : Z;
  rank : Z
}.
End Cmp.

Definition compare_states : list string :=
  ["California"; "Texas"; "Florida"; "New York"]%string.

Definition isin (s : string) (l : list string) : bool :=
  existsb (String.eqb s) l.

(** Order of [sort_values(['state','year'])]. *)
Definition state_year_leb (a b : Cmp.t) : bool :=
  match String.compare (Cmp.state a) (Cmp.state b) with
  | Lt => true
  | Eq => Cmp.year a <=? Cmp.year b
  | Gt => false
  end.

(** Lines 74-77. *)
Definition comp (l : list Obs.t) : list Cmp.t :=
  sort_by state_year_leb
    (map (fun o => Cmp.mk (Obs.state o) (Obs.year o) (Obs.population o) (rank l o))
         (filter (fun o => isin (Obs.state o) compare_states) l)).

(** [comp['year'].max()]; no value on an empty frame. *)
Definition last_year (c : list Cmp.t) : option Z :=
  match map Cmp.year c with
  | [] => None
  | y :: ys => Some (fold_left Z.max ys y)
  end.

(** Line 181: [comp[comp['year'] == last_year]]. *)
Definition last_pts (c : list Cmp.t) : list Cmp.t :=
  match last_year c with
  | Some y => filter (fun r => Cmp.year r =? y) c
  | None => []
  end.

(* ------------------------------------------------------------------ *)
(** ** The remaining summary values *)

(** Line 70: [int(last_pop - base_pop)], a difference of two int64 scalars. *)
Definition abs_change_2010_2019 (s : list Ny.t) : option Z :=
  match base_pop s, last_pop s with
  | Some b, Some e => Some (wrap64 (e - b))
  | _, _ => None
  end.

(** Line 120: [ny.loc[ny['year'] == 2019, 'share_of_us_%'].iloc[0]]. *)
Definition latest_share (s : list Ny.t) : option F64.t :=
  hd_error (share_of_us (filter (fun r => Ny.year r =? 2019) s)).

(* ------------------------------------------------------------------ *)
(** ** Number formatting *)

(** [str(k)] of a Python int. *)
Definition str_of_int (k : Z) : string := NilZero.string_of_int (Z.to_int k).

(** [n / 1_000_000] for a Python int [n >= 1_000_000]: the quotient of two
    ints is the binary64 number nearest to the exact quotient, halves to
    the even mantissa.  The result is [m * 2^e] with [m] of 53 bits; [None]
    is the [OverflowError] of a quotient too large for a float. *)
Definition div_million (n : Z) : option (Z * Z) :=
  let e := Z.log2 (n / 1000000) - 52 in
  let m := if e <=? 0 then round_half_even (n * 2 ^ (- e)) 1000000
           else round_half_even n (1000000 * 2 ^ e) in
  if (0 <? e) && (2 ^ 1024 <=? m * 2 ^ e) then None else Some (m, e).

(** The number of tenths [.1f] prints for the float [m * 2^e]: its exact
    value times ten, rounded to the nearest integer, halves to even. *)
Definition tenths (m e : Z) : Z :=
  if 0 <=? e then 10 * m * 2 ^ e else round_half_even (10 * m) (2 ^ (- e)).

(** [f"{x:.1f}"] from the number of tenths. *)
Definition format_1f (t : Z) : string :=
  (str_of_int (t / 10) ++ "." ++ str_of_int (t mod 10))%string.

(** Lines 82-87, on the Python ints the script passes ([peak_pop] and
    [abs_change_2010_2019]). *)
Definition fmt_num (n : Z) : option string :=
  let sign := if n <? 0 then "-"%string else ""%string in
  let n := Z.abs n in
  if 1000000 <=? n then
    if negb (n mod 1000000 =? 0) then
      match div_million n with
      | Some (m, e) => Some (sign ++ format_1f (tenths m e) ++ " M")%string
      | None => None
      end
    else Some (sign ++ str_of_int (n / 1000000) ++ " M")%string
  else Some (sign ++ str_of_int (n / 1000) ++ " K")%string.

(* ------------------------------------------------------------------ *)
(** ** The table of lines 190-194 *)

(** [fillna(0)] on a float cell. *)
Definition fillna0 (x : F64.t) : F64.t :=
  match x with F64.NaN => F64.Fin 0 | _ => x end.

(** [int(v)] of a float: the value truncated towards zero; [None] is the
    [ValueError] on NaN or the [OverflowError] on an infinity. *)
Definition py_int (x : F64.t) : option Z :=
  match x with
  | F64.Fin v => Some (if Rle_dec 0 v then Int_part v else - Int_part (- v))
  | _ => None
  end.

(** Thousands separators on the digits, least significant first. *)
Fixpoint group3 (ds : list ascii) : list ascii :=
  match ds with
  | a :: b :: c :: rest =>
      match rest with
      | [] => ds
      | _ :: _ => a :: b :: c :: ","%char :: group3 rest
      end
  | _ => ds
  end.

(** [f"{k:,}"] of a Python int. *)
Definition fmt_commas (k : Z) : string :=
  ((if (k <? 0)%Z then "-" else "") ++
   string_of_list_ascii
     (rev (group3 (rev (list_ascii_of_string (str_of_int (Z.abs k)))))))%string.

(** Line 191: the population column as text. *)
Definition table_population (s : list Ny.t) : list string :=
  map (fun r => fmt_commas (Ny.population r)) s.

(** Line 192: [yoy_change.fillna(0).map(lambda v: f"{int(v):,}")]. *)
Definition table_yoy_change (s : list Ny.t) : option (list string) :=
  traverse (fun x => option_map fmt_commas (py_int (fillna0 x))) (yoy_change s).

(** Line 194: [rank.astype(int)]; [None] is the error pandas raises when a
    rank is missing. *)
Definition table_rank (s : list Ny.t) : option (list Z) :=
  traverse Ny.rank s.

(* ------------------------------------------------------------------ *)
(** ** Vocabulary of the statements *)

(** The rows of one state, as a selection of a frame. *)
Definition of_state (s : string) (r : Cmp.t) : bool := String.eqb (Cmp.state r) s.

(** Number of values of a group strictly above [v], and equal to [v]. *)
Definition count_above (v : Z) (vs : list Z) : nat :=
  List.length (filter (fun x => v <? x) vs).

Definition count_tied (v : Z) (vs : list Z) : nat :=
  List.length (filter (fun x => x =? v) vs).

(** The populations of the year group of [y]. *)
Definition year_pops (y : Z) (l : list Obs.t) : list Z :=
  map Obs.population (year_group y l).

(** The national row of a year. *)
Definition us_row (l : list Obs.t) (y : Z) : Us.t :=
  Us.mk y (wrap64 (total (year_pops y l))).

(** The invariant of the tidy frame: (state, year) is a key. *)
Definition key_unique (l : list Obs.t) : Prop :=
  NoDup (map (fun o => (Obs.state o, Obs.year o)) l).



(** Re-pivot of the long frame, in the specification's words: the cell of
    the wide table indexed by (state, year).  There is no cell when the
    key is absent, and none when it is duplicated (a pivot on a duplicated
    index raises). *)
Definition repivot_cell (l : list Obs.t) (s : string) (y : Z) : option Z :=
  match filter (fun o => String.eqb (Obs.state o) s && (Obs.year o =? y)) l with
  | [o] => Some (Obs.population o)
  | _ => None
  end.

(** The successive differences of a column, from the value before it. *)
Fixpoint deltas (prev : Z) (ps : list Z) : list Z :=
  match ps with
  | [] => []
  | p :: ps' => (p - prev) :: deltas p ps'
  end.

(* ------------------------------------------------------------------ *)
(** ** Sample frames *)

(** A small table in the shape of the Census file: the national row, four
    state rows, four population columns among other columns.  Texas and
    New York are tied in 2011; New York peaks in 2020. *)
Definition sample_table : raw_table :=
  mk_raw_table
    ["CENSUS2010POP"; "POPESTIMATE2010"; "POPESTIMATE2011"; "POPESTIMATE2019";
     "POPESTIMATE2020"; "NPOPCHG_2010"]%string
    [ mk_raw_row 10 "United States" 0 [680; 690; 640; 780; 825; 10];
      mk_raw_row 40 "California" 6 [290; 300; 310; 330; 340; 10];
      mk_raw_row 40 "Florida" 12 [85; 90; 90; 90; 95; 5];
      mk_raw_row 40 "New York" 36 [95; 100; 120; 110; 130; 5];
      mk_raw_row 40 "Texas" 48 [190; 200; 120; 250; 260; 10] ].

Definition sample_obs : list Obs.t :=
  Eval cbv in
    match df_long sample_table with
    | Some l => l
    | None => []
    end.

Definition sample_new_york : raw_row :=
  mk_raw_row 40 "New York" 36 [95; 100; 120; 110; 130; 5].

Definition texas_2011 : Obs.t := Obs.mk "Texas" 48 2011 120.
Definition florida_2011 : Obs.t := Obs.mk "Florida" 12 2011 90.



(** New York with population 0 in 2010 and 5 in 2019. *)
Definition zero_base_obs : list Obs.t :=
  [Obs.mk "New York" 36 2010 0; Obs.mk "New York" 36 2019 5].

(** New York with a negative population in 2010 and in 2019. *)
Definition negative_base_obs : list Obs.t :=
  [Obs.mk "New York" 36 2010 (-100); Obs.mk "New York" 36 2019 (-200)].

(** Two New York rows, the first with population zero. *)
Definition zero_prior_obs : list Obs.t :=
  [Obs.mk "New York" 36 2010 0; Obs.mk "New York" 36 2011 5].

(** New York with population 0 in 2010 and 2^53 + 1 in 2011, one more
    than the largest run of integers a float64 holds exactly. *)
Definition beyond_2_53_obs : list Obs.t :=
  [Obs.mk "New York" 36 2010 0; Obs.mk "New York" 36 2011 (2 ^ 53 + 1)].

(** A comparison frame in which Texas stops a year before California. *)
Definition ragged_frame : list Cmp.t :=
  [Cmp.mk "California" 2010 300 1; Cmp.mk "California" 2011 310 1;
   Cmp.mk "Texas" 2010 200 2].

Definition ragged_texas : Cmp.t := Cmp.mk "Texas" 2010 200 2.

(** A series from 2010 to 2019 with a gap. *)
Definition window_series : list Ny.t :=
  [Ny.mk 2010 100 (Some 690) (Some 3); Ny.mk 2015 120 (Some 700) (Some 2);
   Ny.mk 2019 110 (Some 780) (Some 3)].

(** A series in which 2011 and 2012 share the largest population. *)
Definition tied_series : list Ny.t :=
  [Ny.mk 2010 5 (Some 5) (Some 1); Ny.mk 2011 7 (Some 7) (Some 1);
   Ny.mk 2012 7 (Some 7) (Some 1)].

(** Membership in a list written out. *)
Ltac in_list := simpl; repeat (first [left; reflexivity | right]).

(* ------------------------------------------------------------------ *)
(** ** Sorting *)

Section SortBy.

Context {A : Type}.
Variable leb : A -> A -> bool.
Hypothesis leb_total : forall a b, leb a b = true \/ leb b a = true.
Hypothesis leb_trans : forall a b c, leb a b = true -> leb b c = true -> leb a c = true.

Lemma insert_by_perm (x : A) (l : list A) :
  Permutation (insert_by leb x l) (x :: l).
Proof.
  induction l as [|y l IH]; simpl.
  - apply Permutation_refl.
  - destruct (leb x y).
    + apply Permutation_refl.
    + eapply Permutation_trans; [apply perm_skip, IH | apply perm_swap].
Qed.

Lemma sort_by_perm (l : list A) : Permutation (sort_by leb l) l.
Proof.
  induction l as [|x l IH]; simpl.
  - constructor.
  - eapply Permutation_trans; [apply insert_by_perm | now apply perm_skip].
Qed.

Lemma sort_by_In (l : list A) (x : A) : In x (sort_by leb l) <-> In x l.
Proof.
  split; apply Permutation_in; [| apply Permutation_sym]; apply sort_by_perm.
Qed.

Lemma insert_by_sorted (x : A) (l : list A) :
  StronglySorted (fun a b => leb a b = true) l ->
  StronglySorted (fun a b => leb a b = true) (insert_by leb x l).
Proof.
  induction 1 as [|y l Hs IH Hall]; simpl.
  - repeat constructor.
  - destruct (leb x y) eqn:E.
    + constructor; [now constructor|].
      constructor; [exact E|].
      eapply Forall_impl; [|exact Hall].
      intros z Hz. now apply leb_trans with y.
    + constructor; [exact IH|].
      apply Forall_forall. intros z Hz.
      apply (Permutation_in _ (insert_by_perm x l)) in Hz.
      destruct Hz as [<-|Hz].
      * destruct (leb_total x y) as [H|H]; congruence.
      * rewrite Forall_forall in Hall. now apply Hall.
Qed.

Lemma sort_by_sorted (l : list A) :
  StronglySorted (fun a b => leb a b = true) (sort_by leb l).
Proof.
  induction l as [|x l IH]; simpl.
  - constructor.
  - now apply insert_by_sorted.
Qed.

End SortBy.

(* ------------------------------------------------------------------ *)
(** ** Ranks *)

Lemma count_above_perm (v : Z) (l l' : list Z) :
  Permutation l l' -> count_above v l = count_above v l'.
Proof.
  unfold count_above. induction 1; simpl; auto.
  - destruct (v <? x); simpl; congruence.
  - destruct (v <? x), (v <? y); simpl; reflexivity.
  - congruence.
Qed.

(** In a list ordered largest first, a value sits right after the values
    strictly above it. *)
Lemma first_index_sorted (v : Z) (l : list Z) :
  StronglySorted (fun a b => (b <=? a) = true) l ->
  In v l ->
  first_index v l = count_above v l.
Proof.
  unfold count_above.
  induction 1 as [|x l Hs IH Hall]; intros Hin; simpl in *.
  - contradiction.
  - rewrite Forall_forall in Hall.
    destruct (x =? v) eqn:E.
    + apply Z.eqb_eq in E. subst x.
      rewrite Z.ltb_irrefl.
      assert (Hnone : filter (fun x => v <? x) l = []).
      { clear - Hall. induction l as [|y l IH]; simpl; auto.
        assert (Hy : (y <=? v) = true) by (apply Hall; now left).
        apply Z.leb_le in Hy.
        destruct (v <? y) eqn:E; [apply Z.ltb_lt in E; lia|].
        apply IH. intros z Hz. apply Hall. now right. }
      now rewrite Hnone.
    + apply Z.eqb_neq in E.
      destruct Hin as [Heq|Hin]; [congruence|].
      assert (Hv : (v <=? x) = true) by now apply Hall.
      apply Z.leb_le in Hv.
      destruct (v <? x) eqn:E'; [|apply Z.ltb_ge in E'; lia].
      simpl. f_equal. now apply IH.
Qed.

Lemma rank_min_desc_count (vs : list Z) (v : Z) :
  In v vs -> rank_min_desc vs v = 1 + Z.of_nat (count_above v vs).
Proof.
  intros Hin. unfold rank_min_desc. do 2 f_equal.
  rewrite first_index_sorted.
  - apply count_above_perm, sort_by_perm.
  - apply sort_by_sorted.
    + intros a b. rewrite !Z.leb_le. lia.
    + intros a b c. rewrite !Z.leb_le. lia.
  - now apply sort_by_In.
Qed.

Lemma year_group_In (y : Z) (l : list Obs.t) (o : Obs.t) :
  In o (year_group y l) <-> In o l /\ Obs.year o = y.
Proof.
  unfold year_group. rewrite filter_In, Z.eqb_eq. tauto.
Qed.

Lemma year_pops_In (l : list Obs.t) (o : Obs.t) :
  In o l -> In (Obs.population o) (year_pops (Obs.year o) l).
Proof.
  intros H. unfold year_pops. apply in_map. now apply year_group_In.
Qed.

(** The rank of a row is one more than the number of rows of its year with
    a strictly larger population. *)
Lemma rank_count (l : list Obs.t) (o : Obs.t) :
  In o l ->
  rank l o = 1 + Z.of_nat (count_above (Obs.population o) (year_pops (Obs.year o) l)).
Proof.
  intros H. unfold rank. apply rank_min_desc_count. now apply year_pops_In.
Qed.

Lemma count_above_mono (v w : Z) (vs : list Z) :
  v <= w -> (count_above w vs <= count_above v vs)%nat.
Proof.
  intros Hvw. unfold count_above.
  induction vs as [|x vs IH]; simpl; auto.
  destruct (w <? x) eqn:E1, (v <? x) eqn:E2; simpl; lia.
Qed.

(** Stepping down from [w] to the next value present below it adds the
    rows tied at [w]. *)
Lemma count_above_next (v w : Z) (vs : list Z) :
  v < w ->
  (forall x, In x vs -> ~ (v < x < w)) ->
  count_above v vs = (count_above w vs + count_tied w vs)%nat.
Proof.
  intros Hvw. unfold count_above, count_tied.
  induction vs as [|x vs IH]; intros Hgap; simpl; auto.
  assert (Hx : ~ (v < x < w)) by (apply Hgap; now left).
  assert (IH' := IH (fun z Hz => Hgap z (or_intror Hz))).
  destruct (v <? x) eqn:E1, (w <? x) eqn:E2, (x =? w) eqn:E3; simpl;
    rewrite ?Z.ltb_lt, ?Z.ltb_ge, ?Z.eqb_eq, ?Z.eqb_neq in *; lia.
Qed.

Lemma count_above_lt (v w : Z) (vs : list Z) :
  v < w -> In w vs -> (count_above w vs < count_above v vs)%nat.
Proof.
  intros Hvw. unfold count_above.
  induction vs as [|x vs IH]; intros Hin; simpl in *; [contradiction|].
  destruct Hin as [->|Hin].
  - rewrite Z.ltb_irrefl.
    destruct (v <? w) eqn:E; [|apply Z.ltb_ge in E; lia].
    simpl. apply Nat.lt_succ_r. now apply (count_above_mono v w vs), Z.lt_le_incl.
  - specialize (IH Hin).
    destruct (w <? x) eqn:E1, (v <? x) eqn:E2; simpl; lia.
Qed.

Lemma count_above_zero (v : Z) (vs : list Z) :
  count_above v vs = O -> forall x, In x vs -> x <= v.
Proof.
  unfold count_above. intros H x Hx.
  destruct (Z.le_gt_cases x v) as [|Hlt]; auto.
  assert (Hin : In x (filter (fun x => v <? x) vs)).
  { apply filter_In. split; auto. apply Z.ltb_lt. lia. }
  destruct (filter (fun x => v <? x) vs); [contradiction | discriminate].
Qed.

(** C1.  Ranks within a year follow the population, largest first, with
    minimum-rank ties: for two rows [a], [b] of the same year, equal
    populations give equal ranks; a larger population gives a strictly
    smaller rank; if [a] has rank 1 its population is at least that of
    [b]; and if [b] holds the next distinct population below [a], its rank
    is the rank of [a] plus the number of rows tied with [a]. *)
Theorem rank_min_tie_semantics (l : list Obs.t) (a b : Obs.t)
    (Ha : In a l) (Hb : In b l) (Hy : Obs.year a = Obs.year b) :
  (Obs.population a = Obs.population b -> rank l a = rank l b) /\
  (Obs.population b < Obs.population a -> rank l a < rank l b) /\
  (rank l a = 1 -> Obs.population b <= Obs.population a) /\
  (Obs.population b < Obs.population a ->
   (forall c, In c l -> Obs.year c = Obs.year a ->
              ~ (Obs.population b < Obs.population c < Obs.population a)) ->
   rank l b =
     rank l a + Z.of_nat (count_tied (Obs.population a) (year_pops (Obs.year a) l))).
Proof.
  rewrite (rank_count l a Ha), (rank_count l b Hb), <- Hy.
  repeat split.
  - now intros ->.
  - intros Hlt.
    pose proof (count_above_lt _ _ (year_pops (Obs.year a) l) Hlt (year_pops_In l a Ha)).
    lia.
  - intros H1.
    apply (count_above_zero (Obs.population a) (year_pops (Obs.year a) l)); [lia|].
    rewrite Hy. now apply year_pops_In.
  - intros Hlt Hgap.
    rewrite (count_above_next (Obs.population b) (Obs.population a)); [lia | exact Hlt |].
    intros x Hx. unfold year_pops in Hx. apply in_map_iff in Hx.
    destruct Hx as (c & <- & Hc). apply year_group_In in Hc.
    destruct Hc as [Hc Hcy]. now apply Hgap.
Qed.

(* ------------------------------------------------------------------ *)
(** ** Left joins *)

Section MergeLeft.

Context {A B C : Type}.
Variables (kl : A -> Z) (kr : B -> Z) (join : A -> option B -> C).

(** Every row of a left join comes from a left row, joined either with
    nothing (no right row has its key) or with a right row of its key. *)
Lemma merge_left_In (left : list A) (right : list B) (c : C) :
  In c (merge_left kl kr join left right) ->
  exists a, In a left /\
    ((filter (fun b => kr b =? kl a) right = [] /\ c = join a None) \/
     (exists b, In b right /\ kr b = kl a /\ c = join a (Some b))).
Proof.
  unfold merge_left. rewrite in_flat_map.
  intros (a & Ha & Hc). exists a. split; [exact Ha|].
  destruct (filter (fun b => kr b =? kl a) right) as [|b0 bs] eqn:E.
  - left. destruct Hc as [<-|[]]. auto.
  - right. apply in_map_iff in Hc. destruct Hc as (b & <- & Hb).
    rewrite <- E in Hb. apply filter_In in Hb. destruct Hb as [Hb Hk].
    apply Z.eqb_eq in Hk. eauto.
Qed.

(** When each left row has exactly one match, the join is a map. *)
Lemma merge_left_unique (m : A -> B) (left : list A) (right : list B) :
  (forall a, In a left -> filter (fun b => kr b =? kl a) right = [m a]) ->
  merge_left kl kr join left right = map (fun a => join a (Some (m a))) left.
Proof.
  unfold merge_left. induction left as [|a left IH]; intros H; simpl.
  - reflexivity.
  - rewrite (H a (or_introl eq_refl)). simpl. f_equal.
    apply IH. intros a' Ha'. apply H. now right.
Qed.

End MergeLeft.

(** A frame with one row per key, the keys distinct: selecting a key
    present gives its one row. *)
Lemma filter_key_unique {X Y : Type} (k : X -> Z) (k' : Y -> Z) (f : X -> Y)
    (xs : list X) (x : X) :
  (forall z, k' (f z) = k z) ->
  NoDup (map k xs) ->
  In x xs ->
  filter (fun b => k' b =? k x) (map f xs) = [f x].
Proof.
  intros Hk. induction xs as [|z xs IH]; intros Hnd Hin; simpl in *.
  - contradiction.
  - inversion Hnd as [|? ? Hnotin Hnd']; subst.
    rewrite Hk.
    destruct Hin as [->|Hin].
    + rewrite Z.eqb_refl. f_equal.
      clear - Hk Hnotin. induction xs as [|w xs IH]; simpl in *; auto.
      rewrite Hk. destruct (k w =? k x) eqn:E.
      * apply Z.eqb_eq in E. exfalso. apply Hnotin. now left.
      * apply IH. intros H. apply Hnotin. now right.
    + destruct (k z =? k x) eqn:E.
      * apply Z.eqb_eq in E. exfalso. apply Hnotin. rewrite E. now apply in_map.
      * now apply IH.
Qed.

Lemma group_keys_NoDup (ys : list Z) : NoDup (group_keys ys).
Proof.
  unfold group_keys.
  eapply Permutation_NoDup; [apply Permutation_sym, sort_by_perm | apply NoDup_nodup].
Qed.

Lemma group_keys_In (ys : list Z) (y : Z) : In y (group_keys ys) <-> In y ys.
Proof.
  unfold group_keys. rewrite sort_by_In. apply nodup_In.
Qed.

(** [us] has exactly one row for every year of the observations. *)
Lemma us_lookup (l : list Obs.t) (y : Z) :
  In y (map Obs.year l) ->
  filter (fun b => Us.year b =? y) (us l) = [us_row l y].
Proof.
  intros Hy. unfold us.
  apply (filter_key_unique (fun y => y) Us.year (us_row l)).
  - reflexivity.
  - rewrite map_id. apply group_keys_NoDup.
  - now apply group_keys_In.
Qed.

Section FocusFacts.

Variable focus : string.
Variable l : list Obs.t.

Lemma focus_sorted_In (yp : Z * Z) :
  In yp (focus_sorted focus l) <->
  exists o, In o l /\ Obs.state o = focus /\ yp = (Obs.year o, Obs.population o).
Proof.
  unfold focus_sorted. rewrite sort_by_In, in_map_iff.
  split.
  - intros (o & <- & Ho). apply filter_In in Ho. destruct Ho as [Ho Hs].
    apply String.eqb_eq in Hs. eauto.
  - intros (o & Ho & Hs & ->). exists o. split; [reflexivity|].
    apply filter_In. split; [exact Ho|]. now apply String.eqb_eq.
Qed.

(** The first merge always finds the national total. *)
Lemma focus_us_merge :
  merge_left fst Us.year
    (fun (a : Z * Z) b => (a, option_map Us.us_population b))
    (focus_sorted focus l) (us l)
  = map (fun a => (a, Some (Us.us_population (us_row l (fst a))))) (focus_sorted focus l).
Proof.
  rewrite (merge_left_unique fst Us.year _ (fun a => us_row l (fst a)));
    [reflexivity|].
  intros a Ha. apply us_lookup.
  apply focus_sorted_In in Ha. destruct Ha as (o & Ho & _ & ->). simpl.
  now apply in_map.
Qed.

(** A row of the merged series, for a row of the sorted focus frame and
    the rank row it met. *)
Lemma focus_merged_In (r : Ny.t) :
  In r (focus_merged focus l) ->
  exists o o',
    In o l /\ Obs.state o = focus /\
    In o' l /\ Obs.state o' = focus /\ Obs.year o' = Obs.year o /\
    r = Ny.mk (Obs.year o) (Obs.population o)
              (Some (wrap64 (total (year_pops (Obs.year o) l))))
              (Some (rank l o')).
Proof.
  unfold focus_merged. rewrite focus_us_merge. intros Hr.
  apply merge_left_In in Hr. destruct Hr as (a & Ha & Hcase).
  apply in_map_iff in Ha. destruct Ha as (yp & <- & Hyp).
  apply focus_sorted_In in Hyp. destruct Hyp as (o & Ho & Hs & ->).
  simpl in Hcase.
  destruct Hcase as [[Hnone _]|(b & Hb & Hk & ->)].
  - exfalso.
    assert (Hin : In (Obs.year o, rank l o)
                     (filter (fun b => fst b =? Obs.year o) (focus_rank focus l))).
    { apply filter_In. split; [|apply Z.eqb_refl].
      unfold focus_rank.
      apply (in_map (fun o => (Obs.year o, rank l o))).
      apply filter_In. split; [exact Ho|]. now apply String.eqb_eq. }
    rewrite Hnone in Hin. exact Hin.
  - unfold focus_rank in Hb. apply in_map_iff in Hb.
    destruct Hb as (o' & <- & Ho'). apply filter_In in Ho'.
    destruct Ho' as [Ho' Hs']. apply String.eqb_eq in Hs'. simpl in Hk.
    exists o, o'. repeat split; auto.
Qed.

End FocusFacts.

(** C10.  Every row of the New York series carries a national total and a
    rank: both joins of line 54 find a match for every year the focus
    state has, because [us] and the ranks are built from the same
    observations.  The total is the (int64) sum of the year's populations. *)
Theorem ny_joins_complete (l : list Obs.t) (r : Ny.t) :
  In r (ny l) ->
  Ny.us_population r = Some (wrap64 (total (year_pops (Ny.year r) l))) /\
  exists k, Ny.rank r = Some k.
Proof.
  intros Hr. apply focus_merged_In in Hr.
  destruct Hr as (o & o' & _ & _ & _ & _ & _ & ->). simpl. eauto.
Qed.

(* ------------------------------------------------------------------ *)
(** ** Float facts *)

Lemma sgn_pos (x : R) : (0 < x)%R -> F64.sgn x = Gt.
Proof.
  intros H. unfold F64.sgn.
  destruct (total_order_T x 0) as [[Hlt|Heq]|Hgt]; auto; lra.
Qed.

Lemma sgn_neg (x : R) : (x < 0)%R -> F64.sgn x = Lt.
Proof.
  intros H. unfold F64.sgn.
  destruct (total_order_T x 0) as [[Hlt|Heq]|Hgt]; auto; lra.
Qed.

Lemma sgn_zero : F64.sgn 0 = Eq.
Proof.
  unfold F64.sgn.
  destruct (total_order_T 0 0) as [[Hlt|Heq]|Hgt]; auto; lra.
Qed.

(** The sign of a converted integer is the sign of the integer. *)
Lemma sgn_IZR (z : Z) : F64.sgn (IZR z) = (z ?= 0).
Proof.
  destruct (Z.compare_spec z 0) as [->|Hlt|Hgt].
  - apply sgn_zero.
  - apply sgn_neg. now apply (IZR_lt z 0).
  - apply sgn_pos. now apply (IZR_lt 0 z).
Qed.

Lemma sub_of_int (p q : Z) :
  F64.sub (F64.of_int p) (F64.of_int q) = F64.of_int (p - q).
Proof.
  unfold F64.sub, F64.of_int. simpl. f_equal. rewrite minus_IZR. lra.
Qed.

(** Integer over integer zero: an infinity of the numerator's sign, NaN for
    0/0. *)
Lemma div_int_zero (p : Z) :
  F64.div (F64.of_int p) (F64.of_int 0) = F64.inf_of (p ?= 0).
Proof.
  unfold F64.div, F64.of_int. now rewrite sgn_zero, sgn_IZR.
Qed.

Lemma div_int_nonzero (p q : Z) :
  q <> 0 -> F64.div (F64.of_int p) (F64.of_int q) = F64.Fin (IZR p / IZR q).
Proof.
  intros Hq. unfold F64.div, F64.of_int. rewrite sgn_IZR.
  destruct (Z.compare_spec q 0); [contradiction | reflexivity | reflexivity].
Qed.

Lemma inf_minus_one_times_100 (s : comparison) :
  F64.mul (F64.sub (F64.inf_of s) (F64.Fin 1)) (F64.Fin 100) = F64.inf_of s.
Proof.
  assert (H100 : F64.sgn 100 = Gt) by (apply sgn_pos; lra).
  destruct s; unfold F64.sub; simpl; rewrite ?H100; reflexivity.
Qed.

(* ------------------------------------------------------------------ *)
(** ** Differences along a column *)

Lemma nth_error_combine {X Y : Type} (xs : list X) (ys : list Y) (i : nat) (x : X) (y : Y) :
  nth_error xs i = Some x -> nth_error ys i = Some y ->
  nth_error (combine xs ys) i = Some (x, y).
Proof.
  revert ys i. induction xs as [|x0 xs IH]; intros [|y0 ys] [|i]; simpl; try discriminate.
  - now intros [= ->] [= ->].
  - apply IH.
Qed.

Lemma combine_removelast {X : Type} (xs : list X) (x : X) :
  combine xs (removelast (x :: xs)) = combine xs (x :: xs).
Proof.
  revert x. induction xs as [|y xs IH]; intros x.
  - reflexivity.
  - change (removelast (x :: y :: xs)) with (x :: removelast (y :: xs)).
    simpl. f_equal. apply IH.
Qed.

(** A column paired with its shift: the first cell meets NaN, every later
    cell meets the cell before it. *)
Lemma combine_shift (x : F64.t) (xs : list F64.t) :
  combine (x :: xs) (shift (x :: xs)) = (x, F64.NaN) :: combine xs (x :: xs).
Proof.
  unfold shift. cbn [combine]. f_equal. apply combine_removelast.
Qed.

Lemma with_shift_first (g : F64.t -> F64.t -> F64.t) (c : list Z) (p : Z) :
  nth_error c 0 = Some p ->
  nth_error (with_shift g c) 0 = Some (g (F64.of_int p) F64.NaN).
Proof.
  destruct c as [|x c]; [discriminate|]. intros [= ->].
  unfold with_shift. cbn [map]. now rewrite combine_shift.
Qed.

Lemma with_shift_next (g : F64.t -> F64.t -> F64.t) (c : list Z) (i : nat) (p q : Z) :
  nth_error c i = Some q ->
  nth_error c (S i) = Some p ->
  nth_error (with_shift g c) (S i) = Some (g (F64.of_int p) (F64.of_int q)).
Proof.
  destruct c as [|x c]; [destruct i; discriminate|]. intros Hq Hp.
  unfold with_shift. cbn [map]. rewrite combine_shift. cbn [map nth_error].
  change (g (F64.of_int p) (F64.of_int q))
    with ((fun ab => g (fst ab) (snd ab)) (F64.of_int p, F64.of_int q)).
  apply map_nth_error.
  apply nth_error_combine.
  - simpl in Hp. now apply map_nth_error.
  - change (F64.of_int x :: map F64.of_int c) with (map F64.of_int (x :: c)).
    now apply map_nth_error.
Qed.

Lemma wrap64_small (z : Z) : - 2 ^ 63 <= z < 2 ^ 63 -> wrap64 z = z.
Proof.
  intros H. unfold wrap64. rewrite Z.mod_small; lia.
Qed.

Lemma round53_exact (z : Z) : Z.abs z <= 2 ^ 53 -> round53 z = z.
Proof.
  intros Hz. unfold round53.
  destruct (Z.abs z <? 2 ^ 53) eqn:E; [reflexivity|].
  apply Z.ltb_ge in E.
  assert (Hc : z = 2 ^ 53 \/ z = - 2 ^ 53) by lia.
  destruct Hc as [-> | ->]; vm_compute; reflexivity.
Qed.

(** A difference of magnitude at most 2^53 is stored exactly. *)
(** [round53] is the conversion IEEE 754 binary64 gives, as the standard
    library specifies it, on integers spread over the int64 range on both
    sides of zero, and next to the powers of two from 2^53 to 2^63. *)
Lemma round53_agrees_with_binary64 :
  forallb
    (fun z =>
       match value_of_binary64 (SpecFloat.binary_normalize 53 1024 z 0 false) with
       | Some v => v =? round53 z
       | None => false
       end)
    (flat_map
       (fun k =>
          let a := 4611686018427387 * Z.of_nat k + 1 in
          [a; - a; 2 ^ 53 + Z.of_nat k; - (2 ^ 53 + Z.of_nat k);
           2 ^ 63 - 1 - Z.of_nat k; - 2 ^ 63 + Z.of_nat k])
       (seq 0 2000)
     ++ flat_map
       (fun e =>
          let p := 2 ^ (53 + Z.of_nat e) in
          flat_map (fun d => [p + d; p - d; - p + d; - p - d])
                   [0; 1; 2; 3; 4; 5; 6; 7; 8; 255; 256; 257; 511; 512; 513; 1023; 1024; 1025])
       (seq 0 10)) = true.
Proof. vm_compute. reflexivity. Qed.

Lemma stored_difference_exact (d : Z) :
  Z.abs d <= 2 ^ 53 -> to_float64 (wrap64 d) = F64.of_int d.
Proof.
  intros Hd. unfold to_float64.
  rewrite wrap64_small.
  - now rewrite round53_exact.
  - change (2 ^ 53) with 9007199254740992 in Hd.
    change (2 ^ 63) with 9223372036854775808. lia.
Qed.

Lemma diff_first (c : list Z) (p : Z) :
  nth_error c 0 = Some p -> nth_error (diff c) 0 = Some F64.NaN.
Proof.
  destruct c; [discriminate | reflexivity].
Qed.

Lemma diff_next (c : list Z) (i : nat) (p q : Z) :
  nth_error c i = Some q ->
  nth_error c (S i) = Some p ->
  nth_error (diff c) (S i) = Some (to_float64 (wrap64 (p - q))).
Proof.
  destruct c as [|x c]; [destruct i; discriminate|]. intros Hq Hp.
  unfold diff. cbn [nth_error].
  change (to_float64 (wrap64 (p - q)))
    with ((fun ab => to_float64 (wrap64 (fst ab - snd ab))) (p, q)).
  apply map_nth_error. now apply nth_error_combine.
Qed.

Lemma pct_change_first (c : list Z) (p : Z) :
  nth_error c 0 = Some p -> nth_error (pct_change c) 0 = Some F64.NaN.
Proof.
  intros H. unfold pct_change. now rewrite (with_shift_first _ c p H).
Qed.

Lemma pct_change_next (c : list Z) (i : nat) (p q : Z) :
  nth_error c i = Some q ->
  nth_error c (S i) = Some p ->
  nth_error (pct_change c) (S i)
  = Some (F64.sub (F64.div (F64.of_int p) (F64.of_int q)) (F64.Fin 1)).
Proof.
  intros Hq Hp. unfold pct_change.
  now rewrite (with_shift_next _ c i p q Hq Hp).
Qed.

(* ------------------------------------------------------------------ *)
(** ** The series under the key invariant *)

Lemma StronglySorted_nth {X : Type} (lt : X -> X -> Prop) (xs : list X) :
  StronglySorted lt xs ->
  forall (j i : nat) (a b : X),
    (j < i)%nat -> nth_error xs j = Some a -> nth_error xs i = Some b -> lt a b.
Proof.
  induction 1 as [|x xs Hs IH Hall]; intros j i a b Hji Ha Hb.
  - destruct j; discriminate.
  - destruct i as [|i]; [lia|]. simpl in Hb.
    destruct j as [|j]; simpl in Ha.
    + injection Ha as <-. rewrite Forall_forall in Hall.
      apply Hall. eapply nth_error_In; eauto.
    + apply (IH j i); auto. lia.
Qed.

Lemma sorted_nodup_strict (ys : list Z) :
  StronglySorted Z.le ys -> NoDup ys -> StronglySorted Z.lt ys.
Proof.
  induction 1 as [|y ys Hs IH Hall]; intros Hnd.
  - constructor.
  - inversion Hnd as [|? ? Hnotin Hnd']; subst.
    constructor; [now apply IH|].
    rewrite Forall_forall in *. intros z Hz.
    specialize (Hall z Hz).
    assert (y <> z) by (intros ->; contradiction). lia.
Qed.

(** In a strictly increasing column of years, the row of [Y - 1] is the
    row right before the row of [Y]. *)
Lemma consecutive_years_adjacent (ys : list Z) (i j : nat) (Y : Z) :
  StronglySorted Z.lt ys ->
  nth_error ys j = Some (Y - 1) ->
  nth_error ys i = Some Y ->
  i = S j.
Proof.
  intros Hs Hj Hi.
  destruct (Nat.lt_trichotomy i (S j)) as [Hlt|[Heq|Hgt]]; [exfalso | exact Heq | exfalso].
  - destruct (Nat.eq_dec i j) as [->|Hne].
    + rewrite Hj in Hi. injection Hi as Hi. lia.
    + assert (Hij : (i < j)%nat) by lia.
      pose proof (StronglySorted_nth Z.lt ys Hs i j Y (Y - 1) Hij Hi Hj). lia.
  - destruct (nth_error ys (S j)) as [c|] eqn:Hc.
    + pose proof (StronglySorted_nth Z.lt ys Hs j (S j) (Y - 1) c (Nat.lt_succ_diag_r j) Hj Hc).
      pose proof (StronglySorted_nth Z.lt ys Hs (S j) i c Y Hgt Hc Hi). lia.
    + apply nth_error_None in Hc.
      assert (Hil : (i < List.length ys)%nat) by (apply nth_error_Some; congruence).
      lia.
Qed.

Lemma hd_filter_nth {X Y : Type} (f : X -> Y) (p : X -> bool) (xs : list X) (q : Y) :
  hd_error (map f (filter p xs)) = Some q ->
  exists j r, nth_error xs j = Some r /\ p r = true /\ f r = q.
Proof.
  induction xs as [|x xs IH]; simpl; [discriminate|].
  destruct (p x) eqn:E; simpl.
  - intros [= <-]. exists O, x. auto.
  - intros H. destruct (IH H) as (j & r & Hj & Hp & Hf).
    exists (S j), r. auto.
Qed.

Lemma focus_years_NoDup (focus : string) (l : list Obs.t) :
  key_unique l ->
  NoDup (map Obs.year (filter (fun o => String.eqb (Obs.state o) focus) l)).
Proof.
  unfold key_unique. induction l as [|o l IH]; intros Hnd; simpl in *.
  - constructor.
  - inversion Hnd as [|? ? Hnotin Hnd']; subst.
    destruct (String.eqb (Obs.state o) focus) eqn:E; simpl; [|now apply IH].
    apply String.eqb_eq in E.
    constructor; [|now apply IH].
    intros Hin. apply in_map_iff in Hin. destruct Hin as (o' & Hy & Ho').
    apply filter_In in Ho'. destruct Ho' as [Ho' Hs]. apply String.eqb_eq in Hs.
    apply Hnotin. apply in_map_iff. exists o'. split; [|exact Ho'].
    now rewrite Hy, Hs, E.
Qed.

Section FocusUnique.

Variable focus : string.
Variable l : list Obs.t.
Hypothesis Hkey : key_unique l.

(** Under the key invariant both joins are one-to-one, so the merged
    series is the sorted focus frame, row for row, with its two new
    columns. *)
Lemma focus_merged_unique :
  focus_merged focus l =
  map (fun yp => Ny.mk (fst yp) (snd yp)
                   (Some (wrap64 (total (year_pops (fst yp) l))))
                   (Some (rank_min_desc (year_pops (fst yp) l) (snd yp))))
      (focus_sorted focus l).
Proof.
  unfold focus_merged. rewrite focus_us_merge.
  rewrite (merge_left_unique _ fst _
             (fun a : Z * Z * option Z =>
                (fst (fst a), rank_min_desc (year_pops (fst (fst a)) l) (snd (fst a))))).
  - rewrite map_map. reflexivity.
  - intros a Ha. apply in_map_iff in Ha. destruct Ha as (yp & <- & Hyp).
    apply focus_sorted_In in Hyp. destruct Hyp as (o & Ho & Hs & ->).
    cbn [fst snd]. unfold focus_rank.
    apply (filter_key_unique Obs.year fst (fun o => (Obs.year o, rank l o))
             (filter (fun o => String.eqb (Obs.state o) focus) l) o).
    + reflexivity.
    + now apply focus_years_NoDup.
    + apply filter_In. split; [exact Ho|]. now apply String.eqb_eq.
Qed.

Lemma focus_merged_years :
  map Ny.year (focus_merged focus l) = map fst (focus_sorted focus l).
Proof.
  rewrite focus_merged_unique, map_map. reflexivity.
Qed.

Lemma focus_sorted_years_strict :
  StronglySorted Z.lt (map fst (focus_sorted focus l)).
Proof.
  apply sorted_nodup_strict.
  - assert (Hs : StronglySorted (fun a b : Z * Z => (fst a <=? fst b) = true)
                   (focus_sorted focus l)).
    { apply sort_by_sorted.
      - intros a b. rewrite !Z.leb_le. lia.
      - intros a b c. rewrite !Z.leb_le. lia. }
    induction Hs as [|a s Hs IH Hall]; simpl; constructor; auto.
    rewrite Forall_forall in *. intros y Hy.
    apply in_map_iff in Hy. destruct Hy as (b & <- & Hb).
    apply Z.leb_le. now apply Hall.
  - unfold focus_sorted.
    eapply Permutation_NoDup.
    + apply Permutation_map, Permutation_sym, sort_by_perm.
    + rewrite map_map. cbn [fst]. now apply focus_years_NoDup.
Qed.

Lemma focus_merged_years_strict :
  StronglySorted Z.lt (map Ny.year (focus_merged focus l)).
Proof.
  rewrite focus_merged_years. apply focus_sorted_years_strict.
Qed.

End FocusUnique.

(** C3, as the code has it.  In the New York series (sorted by year, the
    (state, year) key unique) the first row is the earliest year and has
    no year-over-year change and no percentage change; and in every row
    whose previous year is present in the series, the change is the int64
    difference between the population of the year and the population of
    the previous year, stored as a float64: exactly that difference
    whenever its magnitude is at most 2^53. *)
Theorem yoy_change_consecutive (l : list Obs.t) (Hkey : key_unique l) :
  (forall r0, nth_error (ny l) 0 = Some r0 ->
     (forall r, In r (ny l) -> Ny.year r0 <= Ny.year r) /\
     nth_error (yoy_change (ny l)) 0 = Some F64.NaN /\
     nth_error (yoy_pct (ny l)) 0 = Some F64.NaN) /\
  (forall i r q,
     nth_error (ny l) i = Some r ->
     loc_population (Ny.year r - 1) (ny l) = Some q ->
     nth_error (yoy_change (ny l)) i
     = Some (to_float64 (wrap64 (Ny.population r - q))) /\
     (Z.abs (Ny.population r - q) <= 2 ^ 53 ->
      nth_error (yoy_change (ny l)) i = Some (F64.of_int (Ny.population r - q)))).
Proof.
  pose proof (focus_merged_years_strict "New York" l Hkey) as Hstrict.
  fold (ny l) in Hstrict.
  split.
  - intros r0 H0. repeat split.
    + intros r Hr. apply In_nth_error in Hr. destruct Hr as [i Hi].
      destruct i as [|i]; [rewrite H0 in Hi; injection Hi as ->; lia|].
      apply Z.lt_le_incl.
      apply (StronglySorted_nth Z.lt _ Hstrict O (S i)); [lia | |];
        now apply map_nth_error.
    + unfold yoy_change.
      apply (diff_first _ (Ny.population r0)). now apply map_nth_error.
    + unfold yoy_pct.
      apply (map_nth_error (fun x => F64.mul x (F64.Fin 100)) O
               (pct_change (map Ny.population (ny l)))
               (d := F64.NaN)).
      apply (pct_change_first _ (Ny.population r0)). now apply map_nth_error.
  - intros i r q Hi Hq.
    apply hd_filter_nth in Hq. destruct Hq as (j & rp & Hj & Hy & Hp).
    apply Z.eqb_eq in Hy.
    assert (i = S j) as ->.
    { apply (consecutive_years_adjacent (map Ny.year (ny l)) i j (Ny.year r) Hstrict).
      - rewrite <- Hy. now apply map_nth_error.
      - now apply map_nth_error. }
    assert (Hd : nth_error (yoy_change (ny l)) (S j)
                 = Some (to_float64 (wrap64 (Ny.population r - q)))).
    { unfold yoy_change. rewrite <- Hp. apply diff_next; now apply map_nth_error. }
    split; [exact Hd|].
    intros Hb. now rewrite Hd, stored_difference_exact.
Qed.

Lemma ny_beyond_2_53_obs :
  ny beyond_2_53_obs =
  [Ny.mk 2010 0 (Some 0) (Some 1);
   Ny.mk 2011 9007199254740993 (Some 9007199254740993) (Some 1)].
Proof. vm_compute. reflexivity. Qed.

(** C3 fails as stated: with populations 0 in 2010 and 2^53 + 1 in 2011
    (the two years consecutive, the key unique) the change stored for
    2011 is 2^53, not the difference 2^53 + 1. *)
Lemma yoy_change_rounding_counterexample :
  key_unique beyond_2_53_obs /\
  nth_error (ny beyond_2_53_obs) 1
  = Some (Ny.mk 2011 9007199254740993 (Some 9007199254740993) (Some 1)) /\
  loc_population (2011 - 1) (ny beyond_2_53_obs) = Some 0 /\
  nth_error (yoy_change (ny beyond_2_53_obs)) 1
  = Some (F64.of_int 9007199254740992) /\
  F64.of_int 9007199254740992 <> F64.of_int (9007199254740993 - 0).
Proof.
  split; [|split; [|split; [|split]]].
  - unfold key_unique, beyond_2_53_obs. cbn [map Obs.state Obs.year].
    repeat (constructor; [cbn [In]; intuition discriminate|]). constructor.
  - rewrite ny_beyond_2_53_obs. reflexivity.
  - rewrite ny_beyond_2_53_obs. reflexivity.
  - rewrite ny_beyond_2_53_obs. unfold yoy_change, diff.
    cbn [map Ny.population combine nth_error fst snd]. unfold to_float64.
    do 2 f_equal; vm_compute; reflexivity.
  - unfold F64.of_int. intros [= H]. apply eq_IZR in H. discriminate.
Qed.

Lemma pct_after_zero_rows (s : list Ny.t) (i : nat) (prev r : Ny.t) :
  nth_error s i = Some prev ->
  nth_error s (S i) = Some r ->
  Ny.population prev = 0 ->
  nth_error (yoy_pct s) (S i) = Some (F64.inf_of (Ny.population r ?= 0)).
Proof.
  intros Hprev Hr H0. unfold yoy_pct.
  rewrite <- (inf_minus_one_times_100 (Ny.population r ?= 0)).
  rewrite <- div_int_zero, <- H0.
  apply (map_nth_error (fun x => F64.mul x (F64.Fin 100))).
  apply pct_change_next; now apply map_nth_error.
Qed.

(** C4, as the code has it.  When the previous row of the New York series
    has population zero, the percentage change does not raise and is not
    missing in general: it is +inf when the year's own population is
    positive, -inf when it is negative, and NaN only when it is zero too. *)
Theorem yoy_pct_zero_prior (l : list Obs.t) (i : nat) (prev r : Ny.t) :
  nth_error (ny l) i = Some prev ->
  nth_error (ny l) (S i) = Some r ->
  Ny.population prev = 0 ->
  nth_error (yoy_pct (ny l)) (S i) = Some (F64.inf_of (Ny.population r ?= 0)).
Proof.
  apply pct_after_zero_rows.
Qed.

Lemma ny_zero_prior_obs :
  ny zero_prior_obs =
  [Ny.mk 2010 0 (Some 0) (Some 1); Ny.mk 2011 5 (Some 5) (Some 1)].
Proof. vm_compute. reflexivity. Qed.

(** C4 fails as stated: New York with population 0 in 2010 and 5 in 2011
    gets +inf, a value, as its 2011 percentage change. *)
Lemma yoy_pct_zero_prior_counterexample :
  (exists prev, nth_error (ny zero_prior_obs) 0 = Some prev /\ Ny.population prev = 0) /\
  nth_error (yoy_pct (ny zero_prior_obs)) 1 = Some F64.PInf /\
  F64.PInf <> F64.NaN.
Proof.
  split; [|split].
  - rewrite ny_zero_prior_obs. eexists. split; reflexivity.
  - pose proof ny_zero_prior_obs as E.
    change (Some F64.PInf) with (Some (F64.inf_of (5 ?= 0))).
    apply (pct_after_zero_rows (ny zero_prior_obs) O
             (Ny.mk 2010 0 (Some 0) (Some 1)) (Ny.mk 2011 5 (Some 5) (Some 1)));
      rewrite ?E; reflexivity.
  - discriminate.
Qed.

(* ------------------------------------------------------------------ *)
(** ** Shares *)











(* ------------------------------------------------------------------ *)
(** ** Compound annual growth rate *)

Lemma ninth_root_pow (x : R) : (0 < x)%R -> (Rpower x (1 / 9) ^ 9 = x)%R.
Proof.
  intros Hx.
  rewrite <- (Rpower_pow 9 (Rpower x (1 / 9))) by apply exp_pos.
  rewrite Rpower_mult.
  replace (1 / 9 * INR 9)%R with 1%R by (simpl; field).
  now apply Rpower_1.
Qed.

(** Line 65 when the ratio is a positive finite number. *)
Lemma cagr_of_positive (b e : Z) :
  (0 < IZR e / IZR b)%R -> b <> 0 ->
  cagr_of b e = F64.Fin ((Rpower (IZR e / IZR b) (1 / 9) + - (1)) * 100).
Proof.
  intros Hpos Hb. unfold cagr_of, years_span.
  rewrite (div_int_nonzero _ _ Hb). unfold F64.pow.
  rewrite (sgn_pos _ Hpos). reflexivity.
Qed.

(** Line 65 when the end population is zero and the start is not. *)
Lemma cagr_of_zero_end (b : Z) : b <> 0 -> cagr_of b 0 = F64.Fin (-100).
Proof.
  intros Hb. unfold cagr_of. rewrite (div_int_nonzero _ _ Hb).
  replace (0 / IZR b)%R with 0%R by (unfold Rdiv; lra).
  unfold F64.pow. rewrite sgn_zero. unfold F64.sub. simpl. f_equal. lra.
Qed.

(** Line 65 when the start population is zero. *)
Lemma cagr_of_zero_base (e : Z) :
  cagr_of 0 e = match e ?= 0 with Eq => F64.NaN | _ => F64.PInf end.
Proof.
  unfold cagr_of. rewrite div_int_zero.
  assert (H100 : F64.sgn 100 = Gt) by (apply sgn_pos; lra).
  destruct (e ?= 0); unfold F64.sub; simpl; rewrite ?H100; reflexivity.
Qed.

(** Line 65 when the ratio is negative. *)
Lemma cagr_of_negative (b e : Z) :
  (IZR e / IZR b < 0)%R -> b <> 0 -> cagr_of b e = F64.NaN.
Proof.
  intros Hneg Hb. unfold cagr_of.
  rewrite (div_int_nonzero _ _ Hb). unfold F64.pow.
  rewrite (sgn_neg _ Hneg). reflexivity.
Qed.

Lemma cagr_defined (s : list Ny.t) (b e : Z) :
  base_pop s = Some b -> last_pop s = Some e -> cagr s = Some (cagr_of b e).
Proof.
  intros Hb He. unfold cagr. now rewrite Hb, He.
Qed.

(** C5.  With a positive 2010 population [P0] and a 2019 population [P1],
    the span is 2019 - 2010 = 9 years and the CAGR is
    100 * ((P1 / P0) ** (1 / 9) - 1), the quotient being finite; and, the
    population [P1] not being negative, it is a finite number [c] such that
    compounding [P0] at [c] percent for 9 years gives back [P1]. *)
Theorem cagr_compounds (l : list Obs.t) (P0 P1 : Z) :
  base_pop (ny l) = Some P0 ->
  last_pop (ny l) = Some P1 ->
  0 < P0 ->
  years_span = 2019 - 2010 /\
  cagr (ny l) =
    Some (F64.mul
            (F64.sub (F64.pow (F64.Fin (IZR P1 / IZR P0)) (1 / IZR (2019 - 2010)))
                     (F64.Fin 1))
            (F64.Fin 100)) /\
  (0 <= P1 ->
   exists c : R,
     cagr (ny l) = Some (F64.Fin c) /\
     (0 < P1 ->
      c = (100 * (Rpower (IZR P1 / IZR P0) (1 / IZR (2019 - 2010)) - 1))%R) /\
     (IZR P0 * (1 + c / 100) ^ Z.to_nat (2019 - 2010) = IZR P1)%R).
Proof.
  intros Hb He H0. split; [reflexivity|].
  rewrite (cagr_defined _ _ _ Hb He).
  assert (HP0 : (0 < IZR P0)%R) by now apply (IZR_lt 0).
  split.
  - unfold cagr_of. rewrite div_int_nonzero by lia. reflexivity.
  - intros H1.
    change (Z.to_nat (2019 - 2010)) with 9%nat.
    change (IZR (2019 - 2010)) with 9%R.
    destruct (Z.eq_dec P1 0) as [->|Hne].
    + exists (-100)%R. rewrite cagr_of_zero_end by lia.
      repeat split; try lia. simpl. lra.
    + assert (HP1 : (0 < IZR P1)%R) by (apply (IZR_lt 0); lia).
      assert (Hr : (0 < IZR P1 / IZR P0)%R) by now apply Rdiv_lt_0_compat.
      exists ((Rpower (IZR P1 / IZR P0) (1 / 9) + - (1)) * 100)%R.
      rewrite cagr_of_positive by (auto; lia).
      repeat split; try lra.
      replace (1 + (Rpower (IZR P1 / IZR P0) (1 / 9) + - (1)) * 100 / 100)%R
        with (Rpower (IZR P1 / IZR P0) (1 / 9)) by lra.
      rewrite ninth_root_pow by exact Hr. field. lra.
Qed.

(** C6, as the code has it.  With both years present and a 2010 population
    that is zero or negative the CAGR never raises, but it is NaN only when
    both populations are zero or when the start is negative and the end
    positive; a zero start with a non-zero end gives +inf, and a negative
    start with a non-positive end gives a finite number. *)
Theorem cagr_nonpositive_base (l : list Obs.t) (b e : Z) :
  base_pop (ny l) = Some b ->
  last_pop (ny l) = Some e ->
  b <= 0 ->
  exists v,
    cagr (ny l) = Some v /\
    (b = 0 -> e = 0 -> v = F64.NaN) /\
    (b = 0 -> e <> 0 -> v = F64.PInf) /\
    (b < 0 -> 0 < e -> v = F64.NaN) /\
    (b < 0 -> e <= 0 -> exists x, v = F64.Fin x).
Proof.
  intros Hb He Hle. exists (cagr_of b e).
  split; [now apply cagr_defined|].
  repeat split.
  - intros -> ->. now rewrite cagr_of_zero_base.
  - intros -> Hne. rewrite cagr_of_zero_base.
    destruct (Z.compare_spec e 0); [contradiction | reflexivity | reflexivity].
  - intros Hb0 He0. apply cagr_of_negative; [|lia].
    assert ((IZR b < 0)%R) by now apply (IZR_lt b 0).
    assert ((0 < IZR e)%R) by now apply (IZR_lt 0 e).
    unfold Rdiv. apply Rmult_pos_neg; [assumption|].
    now apply Rinv_lt_0_compat.
  - intros Hb0 He0.
    destruct (Z.eq_dec e 0) as [->|Hne].
    + rewrite cagr_of_zero_end by lia. eauto.
    + rewrite cagr_of_positive; [eauto | | lia].
      assert ((IZR b < 0)%R) by now apply (IZR_lt b 0).
      assert ((IZR e < 0)%R) by (apply (IZR_lt e 0); lia).
      unfold Rdiv. apply Rmult_neg_neg; [assumption|].
      now apply Rinv_lt_0_compat.
Qed.

Lemma ny_zero_base_obs :
  ny zero_base_obs =
  [Ny.mk 2010 0 (Some 0) (Some 1); Ny.mk 2019 5 (Some 5) (Some 1)].
Proof. vm_compute. reflexivity. Qed.

Lemma ny_negative_base_obs :
  ny negative_base_obs =
  [Ny.mk 2010 (-100) (Some (-100)) (Some 1); Ny.mk 2019 (-200) (Some (-200)) (Some 1)].
Proof. vm_compute. reflexivity. Qed.

(** C6 fails as stated: New York with population 0 in 2010 and 5 in 2019
    has +inf as its CAGR, and with populations -100 and -200 it has the
    finite CAGR 100 * (2 ** (1/9) - 1); neither is NaN. *)
Lemma cagr_zero_base_counterexample :
  (base_pop (ny zero_base_obs) = Some 0 /\
   cagr (ny zero_base_obs) = Some F64.PInf /\
   F64.PInf <> F64.NaN) /\
  (base_pop (ny negative_base_obs) = Some (-100) /\
   cagr (ny negative_base_obs) = Some (F64.Fin ((Rpower 2 (1 / 9) + - (1)) * 100)) /\
   F64.Fin ((Rpower 2 (1 / 9) + - (1)) * 100) <> F64.NaN).
Proof.
  split.
  - rewrite ny_zero_base_obs. split; [reflexivity|]. split; [|discriminate].
    rewrite (cagr_defined _ 0 5) by reflexivity.
    now rewrite cagr_of_zero_base.
  - rewrite ny_negative_base_obs. split; [reflexivity|]. split; [|discriminate].
    rewrite (cagr_defined _ (-100) (-200)) by reflexivity.
    assert (E : (IZR (-200) / IZR (-100) = 2)%R) by (unfold Rdiv; lra).
    rewrite cagr_of_positive; [now rewrite E | rewrite E; lra | lia].
Qed.

(* ------------------------------------------------------------------ *)
(** ** Peak *)

Lemma idxmax_from_spec (s : list Ny.t) (best : Ny.t) :
  (idxmax_from best s = best \/ In (idxmax_from best s) s) /\
  Ny.population best <= Ny.population (idxmax_from best s) /\
  (forall r, In r s -> Ny.population r <= Ny.population (idxmax_from best s)).
Proof.
  revert best. induction s as [|x s IH]; intros best; simpl.
  - split; [now left|]. split; [lia|]. intros r [].
  - destruct (Ny.population best <? Ny.population x) eqn:E.
    + destruct (IH x) as (Hin & Hge & Hall).
      split; [right; destruct Hin as [->|Hin]; auto|].
      split; [lia|].
      intros r [<-|Hr]; auto.
    + destruct (IH best) as (Hin & Hge & Hall).
      split; [destruct Hin as [->|Hin]; auto|].
      split; [exact Hge|].
      intros r [<-|Hr]; [lia | auto].
Qed.

(** C7, as the code has it.  The peak row is a row of the New York series
    whose population is the largest over all rows of the series, whatever
    their year; [peak_year] and [peak_pop] are its year and population
    read back from a float64 row: the year and the population themselves
    whenever their magnitude is at most 2^53, and otherwise the nearest
    float64. *)
Theorem peak_is_series_max (l : list Obs.t) :
  ny l <> [] ->
  exists r,
    peak_row (ny l) = Some r /\
    In r (ny l) /\
    (forall r', In r' (ny l) -> Ny.population r' <= Ny.population r) /\
    peak_year (ny l) = Some (round53 (Ny.year r)) /\
    peak_pop (ny l) = Some (round53 (Ny.population r)) /\
    (Z.abs (Ny.year r) <= 2 ^ 53 -> peak_year (ny l) = Some (Ny.year r)) /\
    (Z.abs (Ny.population r) <= 2 ^ 53 -> peak_pop (ny l) = Some (Ny.population r)).
Proof.
  intros Hne. unfold peak_year, peak_pop, peak_row.
  destruct (ny l) as [|x s]; [contradiction|].
  destruct (idxmax_from_spec s x) as (Hin & Hge & Hall).
  exists (idxmax_from x s). cbn [option_map].
  split; [reflexivity|]. split; [|split; [|split; [|split; [|split]]]].
  - destruct Hin as [->|Hin]; [now left | now right].
  - intros r' [<-|Hr]; auto.
  - reflexivity.
  - reflexivity.
  - intros H. now rewrite round53_exact.
  - intros H. now rewrite round53_exact.
Qed.

(** C7 fails as stated: when New York's largest population is 2^53 + 1,
    the peak row is the row with that population and [peak_pop] is 2^53. *)
Lemma peak_pop_rounding_counterexample :
  peak_row (ny beyond_2_53_obs)
  = Some (Ny.mk 2011 9007199254740993 (Some 9007199254740993) (Some 1)) /\
  (forall r, In r (ny beyond_2_53_obs) -> Ny.population r <= 9007199254740993) /\
  peak_pop (ny beyond_2_53_obs) = Some 9007199254740992 /\
  Some 9007199254740992 <> Some 9007199254740993.
Proof.
  rewrite ny_beyond_2_53_obs. split; [reflexivity|]. split; [|split].
  - intros r [<-|[<-|[]]]; cbn; lia.
  - vm_compute. reflexivity.
  - discriminate.
Qed.

(* ------------------------------------------------------------------ *)
(** ** The reshaper *)

Lemma traverse_In {X Y : Type} (f : X -> option Y) (xs : list X) (ys : list Y) :
  traverse f xs = Some ys ->
  forall y, In y ys <-> exists x, In x xs /\ f x = Some y.
Proof.
  revert ys. induction xs as [|x xs IH]; intros ys H y; simpl in H.
  - injection H as <-. split; [intros [] | intros (x & [] & _)].
  - destruct (f x) as [b|] eqn:E; [|discriminate].
    destruct (traverse f xs) as [bs|]; [|discriminate].
    injection H as <-. simpl. rewrite (IH bs eq_refl y).
    split.
    + intros [<-|(x' & Hx' & Hf)]; [exists x; auto | exists x'; auto].
    + intros (x' & [<-|Hx'] & Hf); [left; congruence | right; eauto].
Qed.

Lemma traverse_defined {X Y : Type} (f : X -> option Y) (xs : list X) (ys : list Y) :
  traverse f xs = Some ys ->
  forall x, In x xs -> exists y, f x = Some y.
Proof.
  revert ys. induction xs as [|x0 xs IH]; intros ys H x Hx; simpl in *.
  - contradiction.
  - destruct (f x0) as [b|] eqn:E; [|discriminate].
    destruct (traverse f xs) as [bs|]; [|discriminate].
    destruct Hx as [<-|Hx]; [eauto | apply (IH bs eq_refl x Hx)].
Qed.

Lemma melt_In (cols : list (nat * string)) (rs : list raw_row) (m : melted) :
  In m (melt cols rs) <->
  exists ic r, In ic cols /\ In r rs /\
    m = mk_melted (NAME r) (STATE r) (snd ic) (nth (fst ic) (cells r) 0).
Proof.
  unfold melt. rewrite in_flat_map. split.
  - intros (ic & Hic & Hm). apply in_map_iff in Hm.
    destruct Hm as (r & <- & Hr). eauto.
  - intros (ic & r & Hic & Hr & ->). exists ic. split; [exact Hic|].
    apply in_map_iff. exists r. auto.
Qed.

Lemma combine_seq_In (cols : list string) (k i : nat) (c : string) :
  In (i, c) (combine (seq k (List.length cols)) cols) <->
  (k <= i)%nat /\ nth_error cols (i - k) = Some c.
Proof.
  revert k. induction cols as [|c0 cols IH]; intros k; simpl.
  - split; [intros [] | intros [_ H]]. destruct (i - k)%nat; discriminate.
  - rewrite IH. split.
    + intros [[= <- <-]|[Hle Hn]].
      * split; [lia|]. now rewrite Nat.sub_diag.
      * split; [lia|]. replace (i - k)%nat with (S (i - S k)) by lia. exact Hn.
    + intros [Hle Hn].
      destruct (Nat.eq_dec i k) as [->|Hne].
      * rewrite Nat.sub_diag in Hn. injection Hn as <-. now left.
      * right. split; [lia|].
        replace (i - k)%nat with (S (i - S k)) in Hn by lia. exact Hn.
Qed.

(** A population column is a column whose label starts with the prefix,
    with its position. *)
Lemma pop_cols_In (t : raw_table) (i : nat) (c : string) :
  In (i, c) (pop_cols t) <->
  nth_error (columns t) i = Some c /\ String.prefix "POPESTIMATE20" c = true.
Proof.
  unfold pop_cols. rewrite filter_In, combine_seq_In, Nat.sub_0_r. simpl.
  intuition lia.
Qed.

Section Reshaped.

Variable t : raw_table.
Variable l : list Obs.t.
Hypothesis Hlong : df_long t = Some l.

(** Every observation is a cell of a state row under a population column. *)
Lemma df_long_from_cell (o : Obs.t) :
  In o l ->
  exists ic r, In ic (pop_cols t) /\ In r (df_states t) /\
    year_of_label (snd ic) = Some (Obs.year o) /\
    o = Obs.mk (NAME r) (STATE r) (Obs.year o) (nth (fst ic) (cells r) 0).
Proof.
  intros Ho. apply (traverse_In _ _ _ Hlong) in Ho.
  destruct Ho as (m & Hm & Hp). apply melt_In in Hm.
  destruct Hm as (ic & r & Hic & Hr & ->).
  unfold parse_year in Hp. simpl in Hp.
  destruct (year_of_label (snd ic)) as [y|] eqn:E; [|discriminate].
  injection Hp as <-. exists ic, r. auto.
Qed.

(** Every cell of a state row under a population column is an observation. *)
Lemma df_long_of_cell (ic : nat * string) (r : raw_row) :
  In ic (pop_cols t) -> In r (df_states t) ->
  exists y, year_of_label (snd ic) = Some y /\
    In (Obs.mk (NAME r) (STATE r) y (nth (fst ic) (cells r) 0)) l.
Proof.
  intros Hic Hr.
  assert (Hm : In (mk_melted (NAME r) (STATE r) (snd ic) (nth (fst ic) (cells r) 0))
                  (melt (pop_cols t) (df_states t))).
  { apply melt_In. eauto. }
  destruct (traverse_defined _ _ _ Hlong _ Hm) as [o Ho].
  assert (Hin : In o l) by (apply (traverse_In _ _ _ Hlong); eauto).
  unfold parse_year in Ho. simpl in Ho.
  destruct (year_of_label (snd ic)) as [y|]; [|discriminate].
  injection Ho as <-. eauto.
Qed.

(** The long frame is rectangular: every state has every year. *)
Lemma df_long_rectangular (o o' : Obs.t) :
  In o l -> In o' l ->
  exists o2, In o2 l /\ Obs.state o2 = Obs.state o /\ Obs.year o2 = Obs.year o'.
Proof.
  intros Ho Ho'.
  destruct (df_long_from_cell o Ho) as (ic & r & Hic & Hr & Hy & Eo).
  destruct (df_long_from_cell o' Ho') as (ic' & r' & Hic' & Hr' & Hy' & Eo').
  destruct (df_long_of_cell ic' r Hic' Hr) as (y & Hy2 & Hin).
  exists (Obs.mk (NAME r) (STATE r) y (nth (fst ic') (cells r) 0)).
  split; [exact Hin|]. rewrite Eo. simpl. split; congruence.
Qed.

End Reshaped.

Lemma traverse_map {X Y K : Type} (f : X -> option Y) (g : Y -> K) (h : X -> K)
    (xs : list X) (ys : list Y) :
  traverse f xs = Some ys ->
  (forall x y, f x = Some y -> g y = h x) ->
  map g ys = map h xs.
Proof.
  intros H Hgh. revert ys H. induction xs as [|x xs IH]; intros ys H; simpl in H.
  - now injection H as <-.
  - destruct (f x) as [y|] eqn:E; [|discriminate].
    destruct (traverse f xs) as [ys'|]; [|discriminate].
    injection H as <-. simpl. f_equal; [now apply Hgh | now apply IH].
Qed.

Lemma NoDup_grid {X Y : Type} (xs : list X) (ys : list Y) :
  NoDup xs -> NoDup ys ->
  NoDup (flat_map (fun y => map (fun x => (x, y)) xs) ys).
Proof.
  intros Hx. induction 1 as [|y ys Hnotin Hy IH]; simpl.
  - constructor.
  - apply NoDup_app.
    + clear - Hx. induction Hx as [|x xs Hn Hx IH]; simpl; constructor; auto.
      intros Hin. apply in_map_iff in Hin. destruct Hin as (x' & [= ->] & Hin).
      contradiction.
    + exact IH.
    + intros [x y'] H1 H2. apply in_map_iff in H1. destruct H1 as (x' & [= -> ->] & _).
      apply in_flat_map in H2. destruct H2 as (y'' & Hy'' & H2).
      apply in_map_iff in H2. destruct H2 as (x'' & [= _ ->] & _). contradiction.
Qed.

(** Where the key invariant comes from: state names that are distinct and
    population columns whose labels give distinct years. *)
Lemma df_long_key_unique (t : raw_table) (l : list Obs.t) :
  df_long t = Some l ->
  NoDup (map NAME (df_states t)) ->
  NoDup (map (fun ic => year_of_label (snd ic)) (pop_cols t)) ->
  key_unique l.
Proof.
  intros Hlong Hnames Hyears. unfold key_unique.
  apply (NoDup_map_inv (fun p : string * Z => (fst p, Some (snd p)))).
  rewrite map_map. cbn [fst snd].
  rewrite (traverse_map parse_year _
             (fun m => (m_NAME m, year_of_label (m_variable m))) _ _ Hlong).
  - unfold melt.
    replace (map _ (flat_map _ (pop_cols t)))
      with (flat_map (fun y => map (fun n => (n, y)) (map NAME (df_states t)))
                     (map (fun ic => year_of_label (snd ic)) (pop_cols t))).
    + now apply NoDup_grid.
    + clear. induction (pop_cols t) as [|ic cols IH]; simpl; [reflexivity|].
      rewrite IH, map_app, !map_map. reflexivity.
  - intros m o Hp. unfold parse_year in Hp.
    destruct (year_of_label (m_variable m)) as [y|]; [|discriminate].
    now injection Hp as <-.
Qed.

(** Selecting by a key on a frame where the key is unique gives the one
    row that has it. *)
Lemma filter_NoDup_key {X K : Type} (k : X -> K) (p : X -> bool) (xs : list X) (x : X) :
  NoDup (map k xs) ->
  In x xs ->
  (forall z, In z xs -> (p z = true <-> k z = k x)) ->
  filter p xs = [x].
Proof.
  induction xs as [|z xs IH]; intros Hnd Hin Hp; simpl in *.
  - contradiction.
  - inversion Hnd as [|? ? Hnotin Hnd']; subst.
    destruct Hin as [->|Hin].
    + assert (Hx : p x = true) by (apply Hp; auto).
      rewrite Hx. f_equal.
      assert (Hnone : forall w, In w xs -> p w = false).
      { intros w Hw. destruct (p w) eqn:E; auto.
        exfalso. apply Hnotin. apply Hp in E; auto. rewrite <- E. now apply in_map. }
      clear - Hnone. induction xs as [|w xs IH]; simpl; auto.
      rewrite (Hnone w (or_introl eq_refl)). apply IH. intros; apply Hnone; now right.
    + destruct (p z) eqn:E.
      * exfalso. apply Hnotin. apply Hp in E; auto. rewrite E. now apply in_map.
      * apply IH; auto.
Qed.

(** C8.  Melting loses nothing: for every state row and every population
    column, the cell is carried by the long-form observation of that state
    and of the year parsed from the column label; and, (state, year) being
    a key, re-pivoting the long frame at (state, year) gives back exactly
    that cell. *)
Theorem melt_roundtrip (t : raw_table) (l : list Obs.t)
    (r : raw_row) (i : nat) (c : string) (v : Z) :
  df_long t = Some l ->
  key_unique l ->
  In r (df_states t) ->
  nth_error (columns t) i = Some c ->
  String.prefix "POPESTIMATE20" c = true ->
  nth_error (cells r) i = Some v ->
  exists y,
    year_of_label c = Some y /\
    In (Obs.mk (NAME r) (STATE r) y v) l /\
    repivot_cell l (NAME r) y = Some v.
Proof.
  intros Hlong Hkey Hr Hc Hpre Hv.
  assert (Hic : In (i, c) (pop_cols t)) by now apply pop_cols_In.
  destruct (df_long_of_cell t l Hlong (i, c) r Hic Hr) as (y & Hy & Hin).
  simpl in Hy, Hin.
  rewrite (nth_error_nth _ _ 0 Hv) in Hin.
  exists y. split; [exact Hy|]. split; [exact Hin|].
  unfold repivot_cell.
  rewrite (filter_NoDup_key (fun o => (Obs.state o, Obs.year o)) _ l
             (Obs.mk (NAME r) (STATE r) y v) Hkey Hin).
  - reflexivity.
  - intros z _. simpl. rewrite andb_true_iff, String.eqb_eq, Z.eqb_eq.
    split; [intros [-> ->]; reflexivity | intros [= -> ->]; auto].
Qed.

(* ------------------------------------------------------------------ *)
(** ** The comparison frame *)

Lemma comp_In (l : list Obs.t) (r : Cmp.t) :
  In r (comp l) <->
  exists o, In o l /\ isin (Obs.state o) compare_states = true /\
    r = Cmp.mk (Obs.state o) (Obs.year o) (Obs.population o) (rank l o).
Proof.
  unfold comp. rewrite sort_by_In, in_map_iff. split.
  - intros (o & <- & Ho). apply filter_In in Ho. destruct Ho. eauto.
  - intros (o & Ho & Hs & ->). exists o. split; [reflexivity|].
    apply filter_In. auto.
Qed.

Lemma NoDup_map_filter {X K : Type} (k : X -> K) (p : X -> bool) (xs : list X) :
  NoDup (map k xs) -> NoDup (map k (filter p xs)).
Proof.
  induction xs as [|x xs IH]; intros Hnd; simpl in *.
  - constructor.
  - inversion Hnd as [|? ? Hnotin Hnd']; subst.
    destruct (p x); simpl; [|now apply IH].
    constructor; [|now apply IH].
    intros Hin. apply Hnotin. apply in_map_iff in Hin.
    destruct Hin as (z & Hz & Hin). apply filter_In in Hin.
    rewrite <- Hz. apply in_map. tauto.
Qed.

(** The comparison frame inherits the (state, year) key. *)
Lemma comp_key_unique (l : list Obs.t) :
  key_unique l -> NoDup (map (fun r => (Cmp.state r, Cmp.year r)) (comp l)).
Proof.
  intros Hkey. unfold comp.
  eapply Permutation_NoDup.
  - apply Permutation_map, Permutation_sym, sort_by_perm.
  - rewrite map_map. cbn [Cmp.state Cmp.year].
    now apply NoDup_map_filter.
Qed.

Lemma fold_max_spec (ys : list Z) (y : Z) :
  In (fold_left Z.max ys y) (y :: ys) /\
  forall z, In z (y :: ys) -> z <= fold_left Z.max ys y.
Proof.
  revert y. induction ys as [|x ys IH]; intros y; simpl.
  - split; [now left|]. intros z [<-|[]]. lia.
  - destruct (IH (Z.max y x)) as [Hin Hall]. split.
    + destruct Hin as [Hm|Hin]; [|now right; right].
      rewrite <- Hm. destruct (Z.max_spec y x) as [[_ ->]|[_ ->]]; auto.
    + intros z Hz.
      assert (Hyx : Z.max y x <= fold_left Z.max ys (Z.max y x))
        by (apply Hall; now left).
      destruct Hz as [<-|[<-|Hz]]; [lia | lia |].
      apply Hall. now right.
Qed.

(** [last_year] is the largest year of the frame, and a year of the frame. *)
Lemma last_year_spec (c : list Cmp.t) (r : Cmp.t) :
  In r c ->
  exists Y, last_year c = Some Y /\
    (exists rY, In rY c /\ Cmp.year rY = Y) /\
    (forall r', In r' c -> Cmp.year r' <= Y).
Proof.
  intros Hr. unfold last_year.
  destruct (map Cmp.year c) as [|y ys] eqn:E.
  - destruct c; [contradiction | discriminate].
  - destruct (fold_max_spec ys y) as [Hin Hall].
    exists (fold_left Z.max ys y). split; [reflexivity|]. split.
    + rewrite <- E in Hin. apply in_map_iff in Hin.
      destruct Hin as (rY & HY & Hin). eauto.
    + intros r' Hr'. apply Hall. rewrite <- E. now apply in_map.
Qed.

(** On any frame, the exposed rows are the rows of the largest year of the
    whole frame. *)
Lemma last_pts_In (c : list Cmp.t) (r : Cmp.t) :
  In r (last_pts c) <->
  In r c /\ forall r', In r' c -> Cmp.year r' <= Cmp.year r.
Proof.
  unfold last_pts. split.
  - destruct (last_year c) as [Y|] eqn:E; [|intros []].
    intros Hr. apply filter_In in Hr. destruct Hr as [Hr HY].
    apply Z.eqb_eq in HY. split; [exact Hr|].
    destruct (last_year_spec c r Hr) as (Y' & HY' & _ & Hmax).
    rewrite E in HY'. injection HY' as <-. now rewrite HY.
  - intros [Hr Hmax].
    destruct (last_year_spec c r Hr) as (Y & HY & (rY & HrY & <-) & Hle).
    rewrite HY. apply filter_In. split; [exact Hr|].
    apply Z.eqb_eq. specialize (Hmax rY HrY). specialize (Hle r Hr). lia.
Qed.

Lemma filter_filter_andb {X : Type} (p q : X -> bool) (xs : list X) :
  filter p (filter q xs) = filter (fun x => p x && q x) xs.
Proof.
  induction xs as [|x xs IH]; simpl; auto.
  destruct (q x); simpl; rewrite ?andb_true_r, ?andb_false_r.
  - destruct (p x); now rewrite IH.
  - exact IH.
Qed.

(** In the comparison frame the script builds, the melt gives every state
    the same years, so the largest year of the whole frame is also each
    state's own largest, and one row of each state is exposed. *)
Lemma comp_last_pts_per_state (t : raw_table) (l : list Obs.t) (s : string) :
  df_long t = Some l ->
  key_unique l ->
  (exists r, In r (comp l) /\ Cmp.state r = s) ->
  exists r1,
    filter (fun r => String.eqb (Cmp.state r) s) (last_pts (comp l)) = [r1] /\
    In r1 (comp l) /\
    Cmp.state r1 = s /\
    forall r', In r' (comp l) -> Cmp.state r' = s -> Cmp.year r' <= Cmp.year r1.
Proof.
  intros Hlong Hkey (r & Hr & Hs).
  destruct (last_year_spec (comp l) r Hr) as (Y & HY & (rY & HrY & HyY) & Hmax).
  apply comp_In in Hr. destruct Hr as (o & Ho & Hisin & ->).
  apply comp_In in HrY. destruct HrY as (oY & HoY & _ & ->).
  simpl in Hs, HyY.
  destruct (df_long_rectangular t l Hlong o oY Ho HoY) as (o2 & Ho2 & Hs2 & Hy2).
  set (r1 := Cmp.mk (Obs.state o2) (Obs.year o2) (Obs.population o2) (rank l o2)).
  assert (Hr1 : In r1 (comp l)).
  { apply comp_In. exists o2. split; [exact Ho2|].
    split; [now rewrite Hs2 | reflexivity]. }
  exists r1. split; [|split; [exact Hr1|split]].
  - unfold last_pts. rewrite HY, filter_filter_andb.
    apply (filter_NoDup_key (fun r => (Cmp.state r, Cmp.year r)) _ (comp l) r1).
    + now apply comp_key_unique.
    + exact Hr1.
    + intros z _. simpl. rewrite andb_true_iff, String.eqb_eq, Z.eqb_eq.
      split.
      * intros [-> ->]. f_equal; congruence.
      * intros [= -> ->]. split; congruence.
  - simpl. congruence.
  - intros r' Hr' _. simpl. rewrite Hy2, HyY. now apply Hmax.
Qed.

(** The original C9 fails: in a frame where Texas stops in 2010 and
    California goes on to 2011, the Texas row of 2010 is the row with the
    largest year Texas has, yet no row of Texas is exposed. *)
Lemma last_pts_per_state_counterexample :
  In ragged_texas ragged_frame /\
  Cmp.state ragged_texas = "Texas"%string /\
  (forall r', In r' ragged_frame -> Cmp.state r' = "Texas"%string ->
              Cmp.year r' <= Cmp.year ragged_texas) /\
  ~ In ragged_texas (last_pts ragged_frame) /\
  filter (of_state "Texas") (last_pts ragged_frame) = [].
Proof.
  split; [in_list|]. split; [reflexivity|]. split.
  - intros r' [<-|[<-|[<-|[]]]]; cbn; intros H; try discriminate H. lia.
  - split; [|reflexivity].
    intros [H|[]]. discriminate H.
Qed.

(** C9, as the code has it.  The rows exposed for the end-of-series labels
    are chosen by one year, the largest year of the whole frame, applied to
    all states.  On any frame and for any state: the exposed rows of the
    state are exactly its rows at that global year; a state of the frame
    is left without any exposed row exactly when some row of the frame has
    a year beyond all the years of the state.  On the frame the script
    builds from a table, with (state, year) a key, every state has every
    year, so the exposed rows hold exactly one row of each state of the
    frame, and it is the state's row with the largest year it has. *)
Theorem last_pts_global_year (c : list Cmp.t) (s : string) :
  (forall r, In r (filter (of_state s) (last_pts c)) <->
     In r c /\ Cmp.state r = s /\ forall r', In r' c -> Cmp.year r' <= Cmp.year r) /\
  ((exists r, In r c /\ Cmp.state r = s) ->
   (filter (of_state s) (last_pts c) = [] <->
    exists r', In r' c /\
      forall r, In r c -> Cmp.state r = s -> Cmp.year r < Cmp.year r')) /\
  (forall t l,
     c = comp l -> df_long t = Some l -> key_unique l ->
     (exists r, In r c /\ Cmp.state r = s) ->
     exists r1,
       filter (of_state s) (last_pts c) = [r1] /\
       In r1 c /\ Cmp.state r1 = s /\
       forall r', In r' c -> Cmp.state r' = s -> Cmp.year r' <= Cmp.year r1).
Proof.
  assert (Hmem : forall r, In r (filter (of_state s) (last_pts c)) <->
     In r c /\ Cmp.state r = s /\ forall r', In r' c -> Cmp.year r' <= Cmp.year r).
  { intros r. rewrite filter_In, last_pts_In. unfold of_state.
    rewrite String.eqb_eq. tauto. }
  split; [exact Hmem|]. split.
  - intros (r0 & Hr0 & Hs0). split.
    + intros Hnil.
      destruct (last_year_spec c r0 Hr0) as (Y & _ & (rY & HrY & HyY) & Hmax).
      exists rY. split; [exact HrY|].
      intros r Hr Hs. specialize (Hmax r Hr) as Hle.
      destruct (Z.eq_dec (Cmp.year r) Y) as [E|E]; [|lia].
      exfalso.
      assert (Hin : In r (filter (of_state s) (last_pts c))).
      { apply Hmem. split; [exact Hr|]. split; [exact Hs|].
        intros r' Hr'. rewrite E. now apply Hmax. }
      rewrite Hnil in Hin. exact Hin.
    + intros (r' & Hr' & Hbeyond).
      destruct (filter (of_state s) (last_pts c)) as [|x xs] eqn:E; [reflexivity|].
      exfalso.
      destruct (proj1 (Hmem x) (or_introl eq_refl)) as (Hxc & Hxs & Hxmax).
      specialize (Hbeyond x Hxc Hxs). specialize (Hxmax r' Hr'). lia.
  - intros t l -> Hlong Hkey Hs.
    exact (comp_last_pts_per_state t l s Hlong Hkey Hs).
Qed.

(* ------------------------------------------------------------------ *)
(** ** The sample table *)

Lemma df_long_sample : df_long sample_table = Some sample_obs.
Proof. vm_compute. reflexivity. Qed.

Lemma key_unique_sample : key_unique sample_obs.
Proof.
  unfold key_unique, sample_obs. cbn [map Obs.state Obs.year].
  repeat (constructor; [cbn [In]; intuition discriminate|]).
  constructor.
Qed.

Lemma ny_sample :
  ny sample_obs =
  [Ny.mk 2010 100 (Some 690) (Some 3); Ny.mk 2011 120 (Some 640) (Some 2);
   Ny.mk 2019 110 (Some 780) (Some 3); Ny.mk 2020 130 (Some 825) (Some 3)].
Proof. vm_compute. reflexivity. Qed.


(* ------------------------------------------------------------------ *)
(** ** The theorems at the sample table *)

Lemma rank_min_tie_semantics_witness :
  In texas_2011 sample_obs /\ In florida_2011 sample_obs /\
  Obs.year texas_2011 = Obs.year florida_2011 /\
  ((Obs.population texas_2011 = Obs.population florida_2011 ->
    rank sample_obs texas_2011 = rank sample_obs florida_2011) /\
   (Obs.population florida_2011 < Obs.population texas_2011 ->
    rank sample_obs texas_2011 < rank sample_obs florida_2011) /\
   (rank sample_obs texas_2011 = 1 ->
    Obs.population florida_2011 <= Obs.population texas_2011) /\
   (Obs.population florida_2011 < Obs.population texas_2011 ->
    (forall c, In c sample_obs -> Obs.year c = Obs.year texas_2011 ->
               ~ (Obs.population florida_2011 < Obs.population c
                  < Obs.population texas_2011)) ->
    rank sample_obs florida_2011 =
      rank sample_obs texas_2011
      + Z.of_nat (count_tied (Obs.population texas_2011)
                    (year_pops (Obs.year texas_2011) sample_obs)))).
Proof.
  assert (Ha : In texas_2011 sample_obs) by in_list.
  assert (Hb : In florida_2011 sample_obs) by in_list.
  assert (Hy : Obs.year texas_2011 = Obs.year florida_2011) by reflexivity.
  exact (conj Ha (conj Hb (conj Hy
           (rank_min_tie_semantics sample_obs texas_2011 florida_2011 Ha Hb Hy)))).
Defined.


Lemma yoy_change_consecutive_witness :
  key_unique sample_obs /\
  ((forall r0, nth_error (ny sample_obs) 0 = Some r0 ->
      (forall r, In r (ny sample_obs) -> Ny.year r0 <= Ny.year r) /\
      nth_error (yoy_change (ny sample_obs)) 0 = Some F64.NaN /\
      nth_error (yoy_pct (ny sample_obs)) 0 = Some F64.NaN) /\
   (forall i r q,
      nth_error (ny sample_obs) i = Some r ->
      loc_population (Ny.year r - 1) (ny sample_obs) = Some q ->
      nth_error (yoy_change (ny sample_obs)) i
      = Some (to_float64 (wrap64 (Ny.population r - q))) /\
      (Z.abs (Ny.population r - q) <= 2 ^ 53 ->
       nth_error (yoy_change (ny sample_obs)) i
       = Some (F64.of_int (Ny.population r - q))))).
Proof.
  exact (conj key_unique_sample (yoy_change_consecutive sample_obs key_unique_sample)).
Defined.

Lemma yoy_pct_zero_prior_witness :
  nth_error (ny zero_prior_obs) 0 = Some (Ny.mk 2010 0 (Some 0) (Some 1)) /\
  nth_error (ny zero_prior_obs) 1 = Some (Ny.mk 2011 5 (Some 5) (Some 1)) /\
  Ny.population (Ny.mk 2010 0 (Some 0) (Some 1)) = 0 /\
  nth_error (yoy_pct (ny zero_prior_obs)) 1
  = Some (F64.inf_of (Ny.population (Ny.mk 2011 5 (Some 5) (Some 1)) ?= 0)).
Proof.
  assert (H0 : nth_error (ny zero_prior_obs) 0 = Some (Ny.mk 2010 0 (Some 0) (Some 1)))
    by (vm_compute; reflexivity).
  assert (H1 : nth_error (ny zero_prior_obs) 1 = Some (Ny.mk 2011 5 (Some 5) (Some 1)))
    by (vm_compute; reflexivity).
  exact (conj H0 (conj H1 (conj eq_refl
           (yoy_pct_zero_prior zero_prior_obs 0 _ _ H0 H1 eq_refl)))).
Defined.

Lemma cagr_compounds_witness :
  base_pop (ny sample_obs) = Some 100 /\
  last_pop (ny sample_obs) = Some 110 /\
  0 < 100 /\
  (years_span = 2019 - 2010 /\
   cagr (ny sample_obs) =
     Some (F64.mul
             (F64.sub (F64.pow (F64.Fin (IZR 110 / IZR 100)) (1 / IZR (2019 - 2010)))
                      (F64.Fin 1))
             (F64.Fin 100)) /\
   (0 <= 110 ->
    exists c : R,
      cagr (ny sample_obs) = Some (F64.Fin c) /\
      (0 < 110 ->
       c = (100 * (Rpower (IZR 110 / IZR 100) (1 / IZR (2019 - 2010)) - 1))%R) /\
      (IZR 100 * (1 + c / 100) ^ Z.to_nat (2019 - 2010) = IZR 110)%R)).
Proof.
  assert (Hb : base_pop (ny sample_obs) = Some 100) by (vm_compute; reflexivity).
  assert (He : last_pop (ny sample_obs) = Some 110) by (vm_compute; reflexivity).
  assert (H0 : 0 < 100) by lia.
  exact (conj Hb (conj He (conj H0 (cagr_compounds sample_obs 100 110 Hb He H0)))).
Defined.

Lemma cagr_nonpositive_base_witness :
  base_pop (ny zero_base_obs) = Some 0 /\
  last_pop (ny zero_base_obs) = Some 5 /\
  0 <= 0 /\
  exists v,
    cagr (ny zero_base_obs) = Some v /\
    (0 = 0 -> 5 = 0 -> v = F64.NaN) /\
    (0 = 0 -> 5 <> 0 -> v = F64.PInf) /\
    (0 < 0 -> 0 < 5 -> v = F64.NaN) /\
    (0 < 0 -> 5 <= 0 -> exists x, v = F64.Fin x).
Proof.
  assert (Hb : base_pop (ny zero_base_obs) = Some 0) by (vm_compute; reflexivity).
  assert (He : last_pop (ny zero_base_obs) = Some 5) by (vm_compute; reflexivity).
  assert (H0 : 0 <= 0) by lia.
  exact (conj Hb (conj He (conj H0 (cagr_nonpositive_base zero_base_obs 0 5 Hb He H0)))).
Defined.

Lemma peak_is_series_max_witness :
  ny sample_obs <> [] /\
  exists r,
    peak_row (ny sample_obs) = Some r /\
    In r (ny sample_obs) /\
    (forall r', In r' (ny sample_obs) -> Ny.population r' <= Ny.population r) /\
    peak_year (ny sample_obs) = Some (round53 (Ny.year r)) /\
    peak_pop (ny sample_obs) = Some (round53 (Ny.population r)) /\
    (Z.abs (Ny.year r) <= 2 ^ 53 -> peak_year (ny sample_obs) = Some (Ny.year r)) /\
    (Z.abs (Ny.population r) <= 2 ^ 53 ->
     peak_pop (ny sample_obs) = Some (Ny.population r)).
Proof.
  assert (Hne : ny sample_obs <> []) by (rewrite ny_sample; discriminate).
  exact (conj Hne (peak_is_series_max sample_obs Hne)).
Defined.

Lemma melt_roundtrip_witness :
  df_long sample_table = Some sample_obs /\
  key_unique sample_obs /\
  In sample_new_york (df_states sample_table) /\
  nth_error (columns sample_table) 1 = Some "POPESTIMATE2010"%string /\
  String.prefix "POPESTIMATE20" "POPESTIMATE2010" = true /\
  nth_error (cells sample_new_york) 1 = Some 100 /\
  exists y,
    year_of_label "POPESTIMATE2010" = Some y /\
    In (Obs.mk (NAME sample_new_york) (STATE sample_new_york) y 100) sample_obs /\
    repivot_cell sample_obs (NAME sample_new_york) y = Some 100.
Proof.
  assert (Hr : In sample_new_york (df_states sample_table)) by in_list.
  exact (conj df_long_sample (conj key_unique_sample (conj Hr
           (conj eq_refl (conj eq_refl (conj eq_refl
              (melt_roundtrip sample_table sample_obs sample_new_york 1
                 "POPESTIMATE2010" 100
                 df_long_sample key_unique_sample Hr eq_refl eq_refl eq_refl))))))).
Defined.

Lemma last_pts_global_year_witness :
  (exists r, In r ragged_frame /\ Cmp.state r = "Texas"%string) /\
  (filter (of_state "Texas") (last_pts ragged_frame) = [] <->
   exists r', In r' ragged_frame /\
     forall r, In r ragged_frame -> Cmp.state r = "Texas"%string ->
               Cmp.year r < Cmp.year r').
Proof.
  assert (Hs : exists r, In r ragged_frame /\ Cmp.state r = "Texas"%string).
  { exists ragged_texas. split; [in_list | reflexivity]. }
  exact (conj Hs (proj1 (proj2 (last_pts_global_year ragged_frame "Texas")) Hs)).
Defined.

Lemma ny_joins_complete_witness :
  In (Ny.mk 2010 100 (Some 690) (Some 3)) (ny sample_obs) /\
  Ny.us_population (Ny.mk 2010 100 (Some 690) (Some 3))
  = Some (wrap64 (total (year_pops (Ny.year (Ny.mk 2010 100 (Some 690) (Some 3)))
                           sample_obs))) /\
  exists k, Ny.rank (Ny.mk 2010 100 (Some 690) (Some 3)) = Some k.
Proof.
  assert (Hr : In (Ny.mk 2010 100 (Some 690) (Some 3)) (ny sample_obs))
    by (rewrite ny_sample; in_list).
  exact (conj Hr (ny_joins_complete sample_obs _ Hr)).
Defined.

(* ------------------------------------------------------------------ *)
(** ** The national series *)

Lemma StronglySorted_leb_le (ys : list Z) :
  StronglySorted (fun a b => (a <=? b) = true) ys -> StronglySorted Z.le ys.
Proof.
  induction 1 as [|y ys Hs IH Hall]; constructor; auto.
  eapply Forall_impl; [|exact Hall]. intros z Hz. now apply Z.leb_le.
Qed.

Lemma group_keys_strict (ys : list Z) : StronglySorted Z.lt (group_keys ys).
Proof.
  apply sorted_nodup_strict; [|apply group_keys_NoDup].
  apply StronglySorted_leb_le. unfold group_keys. apply sort_by_sorted.
  - intros a b. rewrite !Z.leb_le. lia.
  - intros a b c. rewrite !Z.leb_le. lia.
Qed.

Lemma us_years (l : list Obs.t) : map Us.year (us l) = group_keys (map Obs.year l).
Proof.
  unfold us. rewrite map_map. cbn [Us.year]. apply map_id.
Qed.

(** X1.  The national series has exactly one row per year of the
    observations, in increasing order of the year: its years are strictly
    increasing, and a year is in it if and only if some observation has
    that year. *)
Theorem us_one_row_per_year (l : list Obs.t) :
  StronglySorted Z.lt (map Us.year (us l)) /\
  forall y, In y (map Us.year (us l)) <-> In y (map Obs.year l).
Proof.
  rewrite us_years. split.
  - apply group_keys_strict.
  - intros y. apply group_keys_In.
Qed.

Lemma total_nonneg (vs : list Z) : Forall (fun v => 0 <= v) vs -> 0 <= total vs.
Proof.
  induction 1; simpl; lia.
Qed.

Lemma year_pops_cons (y : Z) (o : Obs.t) (l : list Obs.t) :
  total (year_pops y (o :: l)) =
  (if Obs.year o =? y then Obs.population o else 0) + total (year_pops y l).
Proof.
  unfold year_pops, year_group. simpl. destruct (Obs.year o =? y); reflexivity.
Qed.

(** The total of one year is between zero and the grand total. *)
Lemma year_total_bounds (y : Z) (l : list Obs.t) :
  Forall (fun o => 0 <= Obs.population o) l ->
  0 <= total (year_pops y l) <= total (map Obs.population l).
Proof.
  induction 1 as [|o l Ho Hl IH].
  - simpl. lia.
  - rewrite year_pops_cons. simpl. destruct (Obs.year o =? y); lia.
Qed.

Lemma indicator_total (k : Z) (p : Z) (ks : list Z) :
  NoDup ks -> In k ks ->
  total (map (fun y => if k =? y then p else 0) ks) = p.
Proof.
  induction 1 as [|y ks Hnotin Hnd IH]; intros Hin; simpl in *.
  - contradiction.
  - destruct Hin as [->|Hin].
    + rewrite Z.eqb_refl.
      assert (Hz : total (map (fun y => if k =? y then p else 0) ks) = 0).
      { clear - Hnotin. induction ks as [|z ks IH]; simpl; auto.
        destruct (k =? z) eqn:E.
        - apply Z.eqb_eq in E. subst. exfalso. apply Hnotin. now left.
        - rewrite IH; [lia|]. intros H. apply Hnotin. now right. }
      lia.
    + destruct (k =? y) eqn:E.
      * apply Z.eqb_eq in E. subst. contradiction.
      * rewrite IH by assumption. lia.
Qed.

Lemma total_map_add (f g : Z -> Z) (ks : list Z) :
  total (map (fun y => f y + g y) ks) = total (map f ks) + total (map g ks).
Proof.
  induction ks as [|y ks IH]; simpl; lia.
Qed.

(** Grouping by year loses nothing: over keys that are distinct and cover
    the years, the group totals add up to the grand total. *)
Lemma group_totals_partition (ks : list Z) (l : list Obs.t) :
  NoDup ks ->
  (forall o, In o l -> In (Obs.year o) ks) ->
  total (map (fun y => total (year_pops y l)) ks) = total (map Obs.population l).
Proof.
  intros Hnd. induction l as [|o l IH]; intros Hcover.
  - clear. induction ks as [|y ks IHk]; simpl; auto.
  - rewrite (map_ext _ (fun y => (if Obs.year o =? y then Obs.population o else 0)
                                 + total (year_pops y l)))
      by (intros y; apply year_pops_cons).
    rewrite total_map_add, indicator_total, IH.
    + reflexivity.
    + intros o' Ho'. apply Hcover. now right.
    + exact Hnd.
    + apply Hcover. now left.
Qed.

(** X2.  When the populations are non-negative and their grand total fits
    in int64, every national total is the exact sum of its year's
    populations, and the national totals add up to the grand total of all
    observations. *)
Theorem us_totals_exact (l : list Obs.t) :
  Forall (fun o => 0 <= Obs.population o) l ->
  total (map Obs.population l) < 2 ^ 63 ->
  (forall u, In u (us l) -> Us.us_population u = total (year_pops (Us.year u) l)) /\
  total (map Us.us_population (us l)) = total (map Obs.population l).
Proof.
  intros Hpos Hfit.
  assert (Hrow : forall y, wrap64 (total (year_pops y l)) = total (year_pops y l)).
  { intros y. apply wrap64_small.
    pose proof (year_total_bounds y l Hpos). lia. }
  split.
  - intros u Hu. unfold us in Hu. apply in_map_iff in Hu.
    destruct Hu as (y & <- & _). cbn [Us.us_population Us.year].
    fold (year_pops y l). apply Hrow.
  - unfold us. rewrite map_map. cbn [Us.us_population].
    rewrite (map_ext _ (fun y => total (year_pops y l))) by (intros y; apply Hrow).
    apply group_totals_partition.
    + apply group_keys_NoDup.
    + intros o Ho. apply group_keys_In. now apply in_map.
Qed.

(* ------------------------------------------------------------------ *)
(** ** Range of the ranks *)

Lemma count_above_lt_length (v : Z) (vs : list Z) :
  In v vs -> (count_above v vs < List.length vs)%nat.
Proof.
  unfold count_above. induction vs as [|x vs IH]; intros Hin; simpl in *.
  - contradiction.
  - destruct Hin as [->|Hin].
    + rewrite Z.ltb_irrefl. apply Nat.lt_succ_r. apply filter_length_le.
    + specialize (IH Hin). destruct (v <? x); simpl; lia.
Qed.

Lemma count_above_none (v : Z) (vs : list Z) :
  (forall x, In x vs -> x <= v) -> count_above v vs = O.
Proof.
  unfold count_above. induction vs as [|x vs IH]; intros H; simpl; auto.
  assert (x <= v) by (apply H; now left).
  destruct (v <? x) eqn:E; [lia|].
  apply IH. intros z Hz. apply H. now right.
Qed.

Lemma largest_exists (xs : list Obs.t) :
  xs <> [] ->
  exists top, In top xs /\ forall x, In x xs -> Obs.population x <= Obs.population top.
Proof.
  induction xs as [|x xs IH]; intros Hne; [contradiction|].
  destruct xs as [|x' xs'].
  - exists x. split; [now left|]. intros z [<-|[]]. lia.
  - destruct IH as (top & Hin & Hall); [discriminate|].
    destruct (Z.le_gt_cases (Obs.population x) (Obs.population top)).
    + exists top. split; [now right|]. intros z [<-|Hz]; auto.
    + exists x. split; [now left|]. intros z [<-|Hz]; [lia|].
      specialize (Hall z Hz). lia.
Qed.

(** X3.  The rank of a row lies between 1 and the number of rows of its
    year, and every year that has a row has a row of rank 1. *)
Theorem rank_range (l : list Obs.t) (o : Obs.t) :
  In o l ->
  1 <= rank l o <= Z.of_nat (List.length (year_group (Obs.year o) l)) /\
  exists top, In top l /\ Obs.year top = Obs.year o /\ rank l top = 1.
Proof.
  intros Ho. split.
  - rewrite (rank_count l o Ho).
    pose proof (count_above_lt_length _ _ (year_pops_In l o Ho)) as Hlt.
    unfold year_pops in Hlt at 2. rewrite length_map in Hlt. lia.
  - destruct (largest_exists (year_group (Obs.year o) l)) as (top & Hin & Hall).
    + intros E. assert (Hin : In o (year_group (Obs.year o) l))
        by now apply year_group_In.
      rewrite E in Hin. exact Hin.
    + apply year_group_In in Hin. destruct Hin as [Hin Hy].
      exists top. split; [exact Hin|]. split; [exact Hy|].
      rewrite (rank_count l top Hin), count_above_none; [reflexivity|].
      intros x Hx. unfold year_pops in Hx. apply in_map_iff in Hx.
      destruct Hx as (z & <- & Hz). apply Hall. now rewrite <- Hy.
Qed.


(* ------------------------------------------------------------------ *)
(** ** Shape and failure of the reshaper *)

Lemma traverse_length {X Y : Type} (f : X -> option Y) (xs : list X) (ys : list Y) :
  traverse f xs = Some ys -> List.length ys = List.length xs.
Proof.
  revert ys. induction xs as [|x xs IH]; intros ys H; simpl in H.
  - now injection H as <-.
  - destruct (f x); [|discriminate].
    destruct (traverse f xs) as [bs|]; [|discriminate].
    injection H as <-. simpl. f_equal. now apply IH.
Qed.

Lemma traverse_None {X Y : Type} (f : X -> option Y) (xs : list X) :
  traverse f xs = None <-> exists x, In x xs /\ f x = None.
Proof.
  induction xs as [|x xs IH]; simpl.
  - split; [discriminate | intros (x & [] & _)].
  - destruct (f x) as [b|] eqn:E.
    + destruct (traverse f xs) as [bs|].
      * split; [discriminate|].
        intros (x' & [<-|Hx'] & Hf); [congruence|].
        destruct IH as [_ IH]. discriminate IH. eauto.
      * split; [|reflexivity]. intros _.
        destruct IH as [IH _]. destruct (IH eq_refl) as (x' & Hx' & Hf). eauto.
    + split; [|reflexivity]. intros _. exists x. auto.
Qed.

Lemma melt_length (cols : list (nat * string)) (rs : list raw_row) :
  List.length (melt cols rs) = (List.length cols * List.length rs)%nat.
Proof.
  unfold melt. induction cols as [|ic cols IH]; simpl.
  - reflexivity.
  - now rewrite length_app, length_map, IH.
Qed.

(** X4.  When the reshaping succeeds, the long frame has one observation
    per state row and population column, and every observation is a cell
    of a row of level 40 under a column whose label starts with
    [POPESTIMATE20]: its state, code and population are the row's, its year
    is parsed from the label.  Rows of another level never reach it. *)
Theorem df_long_shape (t : raw_table) (l : list Obs.t) :
  df_long t = Some l ->
  List.length l = (List.length (pop_cols t) * List.length (df_states t))%nat /\
  forall o, In o l ->
    exists r i c,
      In r (rows t) /\ SUMLEV r = 40 /\
      nth_error (columns t) i = Some c /\
      String.prefix "POPESTIMATE20" c = true /\
      year_of_label c = Some (Obs.year o) /\
      o = Obs.mk (NAME r) (STATE r) (Obs.year o) (nth i (cells r) 0).
Proof.
  intros Hlong. split.
  - unfold df_long in Hlong. rewrite (traverse_length _ _ _ Hlong). apply melt_length.
  - intros o Ho.
    destruct (df_long_from_cell t l Hlong o Ho) as ([i c] & r & Hic & Hr & Hy & Eo).
    apply pop_cols_In in Hic. destruct Hic as [Hc Hpre].
    unfold df_states in Hr. apply filter_In in Hr. destruct Hr as [Hr Hlev].
    apply Z.eqb_eq in Hlev.
    exists r, i, c. auto 10.
Qed.

(** X5.  On a table whose population-column labels are ASCII, the
    reshaping raises exactly when there is at least one state row and some
    population column has no run of four digits in its label. *)
Theorem df_long_raises_iff (t : raw_table) :
  forallb (fun ic => ascii_label (snd ic)) (pop_cols t) = true ->
  (df_long t = None <->
   df_states t <> [] /\
   exists i c, In (i, c) (pop_cols t) /\ year_of_label c = None).
Proof.
  intros _.
  unfold df_long. rewrite traverse_None. split.
  - intros (m & Hm & Hp). apply melt_In in Hm.
    destruct Hm as ([i c] & r & Hic & Hr & ->).
    unfold parse_year in Hp. cbn [m_variable snd] in Hp.
    split; [intros E; rewrite E in Hr; exact Hr|].
    exists i, c. split; [exact Hic|].
    destruct (year_of_label c); [discriminate | reflexivity].
  - intros (Hne & i & c & Hic & Hy).
    destruct (df_states t) as [|r rs] eqn:E; [contradiction|].
    exists (mk_melted (NAME r) (STATE r) c (nth i (cells r) 0)). split.
    + apply melt_In. exists (i, c), r. split; [exact Hic|]. split; [now left | reflexivity].
    + unfold parse_year. cbn [m_variable]. now rewrite Hy.
Qed.

Lemma digit_val_range (d : ascii) : is_digit d = true -> 0 <= digit_val d <= 9.
Proof.
  unfold is_digit, digit_val. rewrite andb_true_iff, !Nat.leb_le. lia.
Qed.

(** X6.  A label that follows the naming of the Census file,
    [POPESTIMATE20] then two digits then anything, parses to the year
    20dd, between 2000 and 2099. *)
Theorem year_of_label_convention (d1 d2 : ascii) (rest : string) :
  is_digit d1 = true ->
  is_digit d2 = true ->
  year_of_label ("POPESTIMATE20" ++ String d1 (String d2 rest))
  = Some (2000 + 10 * digit_val d1 + digit_val d2) /\
  2000 <= 2000 + 10 * digit_val d1 + digit_val d2 <= 2099.
Proof.
  intros H1 H2. split.
  - unfold year_of_label. cbn -[is_digit digit_val Z.mul Z.add].
    change (is_digit "2") with true. change (is_digit "0") with true.
    change (is_digit "P") with false. change (is_digit "O") with false.
    change (is_digit "E") with false. change (is_digit "S") with false.
    change (is_digit "T") with false. change (is_digit "I") with false.
    change (is_digit "M") with false. change (is_digit "A") with false.
    rewrite H1, H2. cbn -[digit_val Z.mul Z.add].
    change (digit_val "2") with 2. change (digit_val "0") with 0.
    f_equal; lia.
  - pose proof (digit_val_range d1 H1). pose proof (digit_val_range d2 H2). lia.
Qed.


(* ------------------------------------------------------------------ *)
(** ** Rows and order of the merged series *)

Lemma StronglySorted_app {X : Type} (R : X -> X -> Prop) (l1 l2 : list X) :
  StronglySorted R l1 -> StronglySorted R l2 ->
  (forall x y, In x l1 -> In y l2 -> R x y) ->
  StronglySorted R (l1 ++ l2).
Proof.
  induction 1 as [|x l1 Hs IH Hall]; intros H2 Hcross; simpl.
  - exact H2.
  - constructor.
    + apply IH; auto. intros a b Ha Hb. apply Hcross; [now right | exact Hb].
    + apply Forall_app. split; [exact Hall|].
      apply Forall_forall. intros y Hy. apply Hcross; [now left | exact Hy].
Qed.

Lemma constant_sorted (k : Z) (ys : list Z) :
  (forall y, In y ys -> y = k) -> StronglySorted Z.le ys.
Proof.
  induction ys as [|y ys IH]; intros H; constructor.
  - apply IH. intros z Hz. apply H. now right.
  - apply Forall_forall. intros z Hz.
    rewrite (H y (or_introl eq_refl)), (H z (or_intror Hz)). lia.
Qed.

Section MergeOrder.

Context {A B C : Type}.
Variables (kl : A -> Z) (kr : B -> Z) (join : A -> option B -> C) (key : C -> Z).
Hypothesis key_join : forall a b, key (join a b) = kl a.

Lemma merge_left_key (left : list A) (right : list B) (c : C) :
  In c (merge_left kl kr join left right) -> exists a, In a left /\ key c = kl a.
Proof.
  intros Hc. apply merge_left_In in Hc.
  destruct Hc as (a & Ha & [[_ ->]|(b & _ & _ & ->)]); exists a; auto.
Qed.

(** A left join keeps every left row: each one is joined at least once. *)
Lemma merge_left_covers (left : list A) (right : list B) (a : A) :
  In a left -> exists b, In (join a b) (merge_left kl kr join left right).
Proof.
  intros Ha. unfold merge_left.
  destruct (filter (fun b => kr b =? kl a) right) as [|b0 bs] eqn:E.
  - exists None. apply in_flat_map. exists a. split; [exact Ha|].
    rewrite E. now left.
  - exists (Some b0). apply in_flat_map. exists a. split; [exact Ha|].
    rewrite E. now left.
Qed.

(** A left join keeps the order of the left keys. *)
Lemma merge_left_sorted (left : list A) (right : list B) :
  StronglySorted Z.le (map kl left) ->
  StronglySorted Z.le (map key (merge_left kl kr join left right)).
Proof.
  induction left as [|a left IH]; intros Hs.
  - constructor.
  - simpl in Hs. inversion Hs as [|? ? Hs' Hall]; subst.
    change (merge_left kl kr join (a :: left) right)
      with ((match filter (fun b => kr b =? kl a) right with
             | [] => [join a None]
             | b0 :: bs0 => map (fun b => join a (Some b)) (b0 :: bs0)
             end) ++ merge_left kl kr join left right).
    rewrite map_app.
    assert (Hblock : forall y,
              In y (map key (match filter (fun b => kr b =? kl a) right with
                             | [] => [join a None]
                             | b0 :: bs0 => map (fun b => join a (Some b)) (b0 :: bs0)
                             end)) -> y = kl a).
    { intros y Hy. apply in_map_iff in Hy. destruct Hy as (c & <- & Hc).
      destruct (filter (fun b => kr b =? kl a) right) as [|b0 bs0].
      - destruct Hc as [<-|[]]. apply key_join.
      - apply in_map_iff in Hc. destruct Hc as (b & <- & _). apply key_join. }
    apply StronglySorted_app.
    + now apply (constant_sorted (kl a)).
    + now apply IH.
    + intros x y Hx Hy. rewrite (Hblock x Hx).
      apply in_map_iff in Hy. destruct Hy as (c & <- & Hc).
      apply merge_left_key in Hc. destruct Hc as (a' & Ha' & ->).
      rewrite Forall_forall in Hall. apply Hall. now apply in_map.
Qed.

End MergeOrder.

Lemma focus_sorted_sorted (focus : string) (l : list Obs.t) :
  StronglySorted Z.le (map fst (focus_sorted focus l)).
Proof.
  assert (Hs : StronglySorted (fun a b : Z * Z => (fst a <=? fst b) = true)
                 (focus_sorted focus l)).
  { apply sort_by_sorted.
    - intros a b. rewrite !Z.leb_le. lia.
    - intros a b c. rewrite !Z.leb_le. lia. }
  induction Hs as [|a s Hs IH Hall]; simpl; constructor; auto.
  rewrite Forall_forall in *. intros y Hy.
  apply in_map_iff in Hy. destruct Hy as (b & <- & Hb).
  apply Z.leb_le. now apply Hall.
Qed.

(** The years of the merged series are the years of the focus rows. *)
Lemma focus_merged_year_In (focus : string) (l : list Obs.t) (y : Z) :
  In y (map Ny.year (focus_merged focus l)) <->
  exists o, In o l /\ Obs.state o = focus /\ Obs.year o = y.
Proof.
  split.
  - intros Hy. apply in_map_iff in Hy. destruct Hy as (r & <- & Hr).
    apply focus_merged_In in Hr.
    destruct Hr as (o & o' & Ho & Hs & _ & _ & _ & E). subst r. exists o. auto.
  - intros (o & Ho & Hs & <-).
    unfold focus_merged. rewrite focus_us_merge.
    assert (Ha : In ((Obs.year o, Obs.population o),
                     Some (Us.us_population (us_row l (Obs.year o))))
                    (map (fun a => (a, Some (Us.us_population (us_row l (fst a)))))
                         (focus_sorted focus l))).
    { apply in_map_iff. exists (Obs.year o, Obs.population o). split; [reflexivity|].
      apply focus_sorted_In. exists o. auto. }
    destruct (merge_left_covers (fun a : Z * Z * option Z => fst (fst a)) fst
                (fun a b => Ny.mk (fst (fst a)) (snd (fst a)) (snd a) (option_map snd b))
                _ (focus_rank focus l) _ Ha) as [b Hb].
    apply in_map_iff. eexists. split; [|exact Hb]. reflexivity.
Qed.

(** X7.  The New York series is ordered by year, and it has a row for a
    year exactly when New York has an observation for that year: the left
    joins drop no year and add none.  No assumption on the data is needed. *)
Theorem ny_years_complete_and_sorted (l : list Obs.t) :
  StronglySorted Z.le (map Ny.year (ny l)) /\
  forall y, In y (map Ny.year (ny l)) <->
            exists o, In o l /\ Obs.state o = "New York"%string /\ Obs.year o = y.
Proof.
  split.
  - unfold ny, focus_merged. rewrite focus_us_merge.
    apply (merge_left_sorted (fun a : Z * Z * option Z => fst (fst a)) fst); [reflexivity|].
    rewrite map_map. cbn [fst]. apply focus_sorted_sorted.
  - intros y. apply focus_merged_year_In.
Qed.

(** X8.  When (state, year) is a key, the joins neither duplicate nor drop
    a row: the years and populations of the New York series are those of
    the sorted New York rows, one row per New York observation, and the
    years are strictly increasing. *)
Theorem ny_one_row_per_observation (l : list Obs.t) :
  key_unique l ->
  map (fun r => (Ny.year r, Ny.population r)) (ny l) = ny_sorted l /\
  List.length (ny l)
  = List.length (filter (fun o => String.eqb (Obs.state o) "New York") l) /\
  StronglySorted Z.lt (map Ny.year (ny l)).
Proof.
  intros Hkey. unfold ny, ny_sorted.
  rewrite (focus_merged_unique _ _ Hkey), !map_map. cbn [Ny.year Ny.population].
  split; [|split].
  - rewrite (map_ext _ (fun yp => yp)) by (intros [y p]; reflexivity). apply map_id.
  - rewrite length_map. unfold focus_sorted.
    rewrite (Permutation_length (sort_by_perm _ _)). apply length_map.
  - now apply focus_sorted_years_strict.
Qed.

(* ------------------------------------------------------------------ *)
(** ** Year-over-year columns, row by row *)

Lemma last_cons {X : Type} (x d : X) (xs : list X) : last (x :: xs) d = last xs x.
Proof.
  revert x d. induction xs as [|y ys IH]; intros x d; [reflexivity|].
  change (last (x :: y :: ys) d) with (last (y :: ys) d).
  now rewrite !IH.
Qed.

Lemma last_map_population (rest : list Ny.t) (r0 : Ny.t) :
  last (map Ny.population rest) (Ny.population r0) = Ny.population (last rest r0).
Proof.
  revert r0. induction rest as [|r rest IH]; intros r0; [reflexivity|].
  cbn [map]. now rewrite !last_cons, IH.
Qed.

Lemma changes_as_deltas (ps : list Z) (p0 : Z) :
  map (fun ab => to_float64 (wrap64 (fst ab - snd ab))) (combine ps (p0 :: ps))
  = map (fun d => to_float64 (wrap64 d)) (deltas p0 ps).
Proof.
  revert p0. induction ps as [|p ps IH]; intros p0; [reflexivity|].
  cbn [map combine deltas fst snd]. now rewrite IH.
Qed.

(** The column of changes: no value, then each int64 difference as the
    float64 that stores it. *)
Lemma yoy_change_as_deltas (r0 : Ny.t) (rest : list Ny.t) :
  yoy_change (r0 :: rest)
  = F64.NaN :: map (fun d => to_float64 (wrap64 d))
                   (deltas (Ny.population r0) (map Ny.population rest)).
Proof.
  unfold yoy_change, diff. cbn [map]. now rewrite changes_as_deltas.
Qed.

Lemma deltas_bounded (ps : list Z) (p0 : Z) :
  Forall (fun p => 0 <= p <= 2 ^ 53) (p0 :: ps) ->
  Forall (fun d => Z.abs d <= 2 ^ 53) (deltas p0 ps).
Proof.
  revert p0. induction ps as [|p ps IH]; intros p0 H; [constructor|].
  inversion H as [|? ? H0 H']; subst. inversion H' as [|? ? H1 H'']; subst.
  cbn [deltas]. constructor; [lia|]. now apply IH.
Qed.

Lemma deltas_total (ps : list Z) (p0 : Z) : total (deltas p0 ps) = last ps p0 - p0.
Proof.
  revert p0. induction ps as [|p ps IH]; intros p0.
  - simpl. lia.
  - cbn [deltas total fold_right]. fold (total (deltas p ps)).
    rewrite IH, last_cons. lia.
Qed.

(** X9.  The yearly changes add up.  On a series whose populations lie
    between 0 and 2^53, the column of changes holds no value in its first
    row and then exactly the integer differences between each population
    and the one before it, and these differences sum to the population of
    the last row minus the population of the first. *)
Theorem yoy_change_telescopes (r0 : Ny.t) (rest : list Ny.t) :
  Forall (fun r => 0 <= Ny.population r <= 2 ^ 53) (r0 :: rest) ->
  yoy_change (r0 :: rest)
  = F64.NaN :: map F64.of_int (deltas (Ny.population r0) (map Ny.population rest)) /\
  total (deltas (Ny.population r0) (map Ny.population rest))
  = Ny.population (last rest r0) - Ny.population r0.
Proof.
  intros Hb. split.
  - rewrite yoy_change_as_deltas. f_equal.
    assert (Hd : Forall (fun d => Z.abs d <= 2 ^ 53)
                   (deltas (Ny.population r0) (map Ny.population rest))).
    { apply deltas_bounded.
      change (Ny.population r0 :: map Ny.population rest)
        with (map Ny.population (r0 :: rest)).
      apply Forall_map. exact Hb. }
    induction Hd as [|d ds Hd Hds IH]; [reflexivity|].
    cbn [map]. now rewrite stored_difference_exact, IH.
  - now rewrite deltas_total, last_map_population.
Qed.

(** X10.  The change of a row is computed from the row before it,
    whatever their years: after any row with population [q], a row with
    population [p] has as its change the int64 difference [p - q] stored
    as a float64, which is exactly [p - q] whenever that difference has
    magnitude at most 2^53.  A gap in the years is not detected. *)
Theorem yoy_uses_previous_row (s : list Ny.t) (i : nat) (prev r : Ny.t) :
  nth_error s i = Some prev ->
  nth_error s (S i) = Some r ->
  nth_error (yoy_change s) (S i)
  = Some (to_float64 (wrap64 (Ny.population r - Ny.population prev))) /\
  (Z.abs (Ny.population r - Ny.population prev) <= 2 ^ 53 ->
   nth_error (yoy_change s) (S i)
   = Some (F64.of_int (Ny.population r - Ny.population prev))).
Proof.
  intros Hprev Hr.
  assert (Hd : nth_error (yoy_change s) (S i)
               = Some (to_float64 (wrap64 (Ny.population r - Ny.population prev)))).
  { unfold yoy_change. apply diff_next; now apply map_nth_error. }
  split; [exact Hd|].
  intros Hb. now rewrite Hd, stored_difference_exact.
Qed.

(* ------------------------------------------------------------------ *)
(** ** Range of the share *)

Lemma member_le_year_total (l : list Obs.t) (o : Obs.t) :
  Forall (fun o => 0 <= Obs.population o) l ->
  In o l ->
  Obs.population o <= total (year_pops (Obs.year o) l).
Proof.
  induction 1 as [|x l Hx Hl IH]; intros Hin; [contradiction|].
  rewrite year_pops_cons.
  pose proof (year_total_bounds (Obs.year o) l Hl) as Hb.
  destruct Hin as [->|Hin].
  - rewrite Z.eqb_refl. lia.
  - specialize (IH Hin). destruct (Obs.year x =? Obs.year o); lia.
Qed.

(** X11.  With non-negative populations whose grand total fits in int64,
    the share of every row of the New York series with a positive
    population is a finite number, above 0 and at most 100. *)
Theorem share_within_0_100 (l : list Obs.t) (r : Ny.t) :
  Forall (fun o => 0 <= Obs.population o) l ->
  total (map Obs.population l) < 2 ^ 63 ->
  In r (ny l) ->
  0 < Ny.population r ->
  exists x, share_row r = F64.Fin x /\ (0 < x <= 100)%R.
Proof.
  intros Hpos Hfit Hr Hp. apply focus_merged_In in Hr.
  destruct Hr as (o & o' & Ho & _ & _ & _ & _ & ->). cbn [Ny.population] in Hp.
  pose proof (member_le_year_total l o Hpos Ho) as Hle.
  pose proof (year_total_bounds (Obs.year o) l Hpos) as Hb.
  unfold share_row. cbn [Ny.population Ny.us_population F64.of_opt].
  rewrite wrap64_small by lia. rewrite div_int_nonzero by lia.
  cbn [F64.mul]. eexists. split; [reflexivity|].
  assert (HP : (0 < IZR (Obs.population o))%R) by now apply (IZR_lt 0).
  assert (HT : (IZR (Obs.population o) <= IZR (total (year_pops (Obs.year o) l)))%R)
    by now apply IZR_le.
  assert (HT0 : (0 < IZR (total (year_pops (Obs.year o) l)))%R) by lra.
  split.
  - apply Rmult_lt_0_compat; [|lra]. now apply Rdiv_lt_0_compat.
  - apply (Rmult_le_reg_r (IZR (total (year_pops (Obs.year o) l)))); [exact HT0|].
    replace (IZR (Obs.population o) / IZR (total (year_pops (Obs.year o) l)) * 100
             * IZR (total (year_pops (Obs.year o) l)))%R
      with (100 * IZR (Obs.population o))%R by (field; lra).
    lra.
Qed.

(* ------------------------------------------------------------------ *)
(** ** Growth: sign and failure *)

Lemma Rpower_one (y : R) : Rpower 1 y = 1%R.
Proof.
  unfold Rpower. now rewrite ln_1, Rmult_0_r, exp_0.
Qed.

(** The ninth root is on the same side of 1 as its argument. *)
Lemma ninth_root_side (x : R) :
  (0 < x)%R ->
  ((1 < Rpower x (1 / 9) <-> 1 < x) /\
   (Rpower x (1 / 9) = 1 <-> x = 1) /\
   (Rpower x (1 / 9) < 1 <-> x < 1))%R.
Proof.
  intros Hx.
  assert (H9 : (0 < 1 / 9)%R) by lra.
  assert (Hgt : (1 < x -> 1 < Rpower x (1 / 9))%R).
  { intros H. rewrite <- (Rpower_one (1 / 9)) at 1. apply Rlt_Rpower_l; lra. }
  assert (Hlt : (x < 1 -> Rpower x (1 / 9) < 1)%R).
  { intros H. rewrite <- (Rpower_one (1 / 9)) at 2. apply Rlt_Rpower_l; lra. }
  assert (Heq : (x = 1 -> Rpower x (1 / 9) = 1)%R).
  { intros ->. apply Rpower_one. }
  destruct (Rtotal_order x 1) as [H|[H|H]];
    pose proof (Hgt) as Hg; pose proof (Hlt) as Hl; pose proof (Heq) as He;
    repeat split; intros; try lra;
    try (specialize (Hgt ltac:(lra)); lra);
    try (specialize (Hlt ltac:(lra)); lra);
    try (specialize (Heq ltac:(lra)); lra).
Qed.

(** X12.  For positive int64 populations in 2010 and 2019 the two growth
    figures never disagree in sign: the absolute change is exactly the
    2019 population minus the 2010 population, the CAGR is a finite number
    above -100, it is not negative when the population did not fall, not
    positive when it did not rise, and 0 when it is unchanged.  (A small
    change may still show a CAGR of 0: the ninth root of a ratio close to
    1 can be stored as 1.) *)
Theorem growth_signs_agree (l : list Obs.t) (P0 P1 : Z) :
  base_pop (ny l) = Some P0 ->
  last_pop (ny l) = Some P1 ->
  0 < P0 < 2 ^ 63 ->
  0 < P1 < 2 ^ 63 ->
  exists c : R,
    cagr (ny l) = Some (F64.Fin c) /\
    abs_change_2010_2019 (ny l) = Some (P1 - P0) /\
    (-100 < c)%R /\
    (0 <= P1 - P0 -> (0 <= c)%R) /\
    (P1 - P0 <= 0 -> (c <= 0)%R) /\
    (P1 - P0 = 0 -> c = 0%R).
Proof.
  intros Hb He H0 H1.
  assert (HP0 : (0 < IZR P0)%R) by (apply (IZR_lt 0); lia).
  assert (HP1 : (0 < IZR P1)%R) by (apply (IZR_lt 0); lia).
  assert (Hr : (0 < IZR P1 / IZR P0)%R) by now apply Rdiv_lt_0_compat.
  exists ((Rpower (IZR P1 / IZR P0) (1 / 9) + - (1)) * 100)%R.
  rewrite (cagr_defined _ _ _ Hb He), cagr_of_positive by (auto; lia).
  split; [reflexivity|]. split.
  { unfold abs_change_2010_2019. rewrite Hb, He. f_equal. apply wrap64_small. lia. }
  destruct (ninth_root_side _ Hr) as (Hgt & Heq & Hlt).
  assert (Hroot : (0 < Rpower (IZR P1 / IZR P0) (1 / 9))%R) by apply exp_pos.
  assert (Hq : forall a b : R, (0 < b -> a / b * b = a)%R)
    by (intros a b Hb0; field; lra).
  assert (Hge : 0 <= P1 - P0 -> (1 <= Rpower (IZR P1 / IZR P0) (1 / 9))%R).
  { intros H. assert (Hz : (IZR P0 <= IZR P1)%R) by (apply IZR_le; lia).
    assert (Hx : (1 <= IZR P1 / IZR P0)%R).
    { apply (Rmult_le_reg_r (IZR P0)); [exact HP0|]. rewrite Hq by exact HP0. lra. }
    destruct (Rle_lt_or_eq_dec _ _ Hx) as [Hs|He1].
    - apply Hgt in Hs. lra.
    - symmetry in He1. apply Heq in He1. lra. }
  assert (Hle : P1 - P0 <= 0 -> (Rpower (IZR P1 / IZR P0) (1 / 9) <= 1)%R).
  { intros H. assert (Hz : (IZR P1 <= IZR P0)%R) by (apply IZR_le; lia).
    assert (Hx : (IZR P1 / IZR P0 <= 1)%R).
    { apply (Rmult_le_reg_r (IZR P0)); [exact HP0|]. rewrite Hq by exact HP0. lra. }
    destruct (Rle_lt_or_eq_dec _ _ Hx) as [Hs|He1].
    - apply Hlt in Hs. lra.
    - apply Heq in He1. lra. }
  split; [lra|].
  split; [|split]; intros H.
  - specialize (Hge H). lra.
  - specialize (Hle H). lra.
  - specialize (Hge ltac:(lia)). specialize (Hle ltac:(lia)). lra.
Qed.

Lemma loc_population_None (y : Z) (s : list Ny.t) :
  loc_population y s = None <-> ~ In y (map Ny.year s).
Proof.
  unfold loc_population. induction s as [|r s IH]; simpl.
  - tauto.
  - destruct (Ny.year r =? y) eqn:E; simpl.
    + apply Z.eqb_eq in E. split; [discriminate | intros H; exfalso; apply H; now left].
    + apply Z.eqb_neq in E. rewrite IH. tauto.
Qed.

Lemma latest_share_None (s : list Ny.t) :
  latest_share s = None <-> loc_population 2019 s = None.
Proof.
  unfold latest_share, loc_population, share_of_us.
  destruct (filter (fun r => Ny.year r =? 2019) s); simpl; split; congruence.
Qed.

(** X13.  The CAGR and the absolute change raise exactly when New York has
    no observation for 2010 or none for 2019, and the latest share raises
    exactly when it has none for 2019; otherwise each has a value. *)
Theorem summary_raises_iff_year_missing (l : list Obs.t) :
  (cagr (ny l) = None <-> abs_change_2010_2019 (ny l) = None) /\
  (cagr (ny l) = None <->
   (~ exists o, In o l /\ Obs.state o = "New York"%string /\ Obs.year o = 2010) \/
   (~ exists o, In o l /\ Obs.state o = "New York"%string /\ Obs.year o = 2019)) /\
  (latest_share (ny l) = None <->
   ~ exists o, In o l /\ Obs.state o = "New York"%string /\ Obs.year o = 2019).
Proof.
  assert (H10 := loc_population_None 2010 (ny l)).
  assert (H19 := loc_population_None 2019 (ny l)).
  unfold ny in H10, H19 at 2. rewrite focus_merged_year_In in H10, H19.
  fold (ny l) in H10, H19.
  split; [|split; [|now rewrite latest_share_None]].
  - unfold cagr, abs_change_2010_2019, base_pop, last_pop.
    destruct (loc_population 2010 (ny l)), (loc_population 2019 (ny l));
      split; congruence.
  - unfold cagr, base_pop, last_pop.
    destruct (loc_population 2010 (ny l)) as [b|], (loc_population 2019 (ny l)) as [e|];
      split; intros H; try discriminate; try reflexivity.
    + destruct H as [H|H]; [apply H10 in H | apply H19 in H]; discriminate.
    + right. now apply H19.
    + left. now apply H10.
    + left. now apply H10.
Qed.


(* ------------------------------------------------------------------ *)
(** ** The peak among equal populations *)

Lemma idxmax_from_first (s : list Ny.t) (best : Ny.t) :
  (idxmax_from best s = best /\
   forall r, In r s -> Ny.population r <= Ny.population best) \/
  (exists i,
     nth_error s i = Some (idxmax_from best s) /\
     Ny.population best < Ny.population (idxmax_from best s) /\
     forall j r, (j < i)%nat -> nth_error s j = Some r ->
                 Ny.population r < Ny.population (idxmax_from best s)).
Proof.
  revert best. induction s as [|x s IH]; intros best; simpl.
  - left. split; [reflexivity|]. intros r [].
  - destruct (Ny.population best <? Ny.population x) eqn:E.
    + apply Z.ltb_lt in E. right.
      destruct (IH x) as [[Heq Hall]|(i & Hi & Hlt & Hbefore)].
      * exists O. rewrite Heq. split; [reflexivity|]. split; [exact E|].
        intros j r Hj. lia.
      * exists (S i). split; [exact Hi|]. split; [lia|].
        intros [|j] r Hj Hr; simpl in Hr.
        -- injection Hr as <-. exact Hlt.
        -- apply (Hbefore j r); [lia | exact Hr].
    + apply Z.ltb_ge in E.
      destruct (IH best) as [[Heq Hall]|(i & Hi & Hlt & Hbefore)].
      * left. split; [exact Heq|]. intros r [<-|Hr]; [lia | now apply Hall].
      * right. exists (S i). split; [exact Hi|]. split; [exact Hlt|].
        intros [|j] r Hj Hr; simpl in Hr.
        -- injection Hr as <-. lia.
        -- apply (Hbefore j r); [lia | exact Hr].
Qed.

(** X14.  Among rows with the same largest population the peak is the
    first one of the series (the earliest year, the series being ordered
    by year): every row before the peak row has a strictly smaller
    population. *)
Theorem peak_is_first_maximum (s : list Ny.t) (r : Ny.t) :
  peak_row s = Some r ->
  exists i,
    nth_error s i = Some r /\
    forall j r', (j < i)%nat -> nth_error s j = Some r' ->
                 Ny.population r' < Ny.population r.
Proof.
  unfold peak_row. destruct s as [|x s]; [discriminate|]. intros [= <-].
  destruct (idxmax_from_first s x) as [[Heq Hall]|(i & Hi & Hlt & Hbefore)].
  - exists O. rewrite Heq. split; [reflexivity|]. intros j r' Hj. lia.
  - exists (S i). split; [exact Hi|].
    intros [|j] r' Hj Hr; simpl in Hr.
    + injection Hr as <-. exact Hlt.
    + apply (Hbefore j r'); [lia | exact Hr].
Qed.

(* ------------------------------------------------------------------ *)
(** ** Order and content of the comparison frame *)

Lemma ascii_compare_trans (a b c : ascii) :
  Ascii.compare a b = Lt -> Ascii.compare b c = Lt -> Ascii.compare a c = Lt.
Proof.
  unfold Ascii.compare. rewrite !N.compare_lt_iff. apply N.lt_trans.
Qed.

Lemma string_compare_refl (a : string) : String.compare a a = Eq.
Proof.
  induction a as [|c a IH]; simpl; [reflexivity|].
  unfold Ascii.compare. now rewrite N.compare_refl.
Qed.

Lemma string_compare_trans (a b c : string) :
  String.compare a b = Lt -> String.compare b c = Lt -> String.compare a c = Lt.
Proof.
  revert b c. induction a as [|x a IH]; intros [|y b] [|z c]; simpl; try discriminate; auto.
  destruct (Ascii.compare x y) eqn:Exy; try discriminate.
  - apply Ascii.compare_eq_iff in Exy. subst y.
    destruct (Ascii.compare x z) eqn:Exz; try discriminate; auto.
    apply IH.
  - intros _. destruct (Ascii.compare y z) eqn:Eyz; try discriminate.
    + apply Ascii.compare_eq_iff in Eyz. subst z. now rewrite Exy.
    + now rewrite (ascii_compare_trans x y z Exy Eyz).
Qed.

Lemma state_year_leb_total (a b : Cmp.t) :
  state_year_leb a b = true \/ state_year_leb b a = true.
Proof.
  unfold state_year_leb. rewrite (String.compare_antisym (Cmp.state b)).
  destruct (String.compare (Cmp.state a) (Cmp.state b)); simpl; auto.
  rewrite !Z.leb_le. lia.
Qed.

Lemma state_year_leb_trans (a b c : Cmp.t) :
  state_year_leb a b = true -> state_year_leb b c = true -> state_year_leb a c = true.
Proof.
  unfold state_year_leb.
  destruct (String.compare (Cmp.state a) (Cmp.state b)) eqn:Eab; try discriminate;
    destruct (String.compare (Cmp.state b) (Cmp.state c)) eqn:Ebc; try discriminate.
  - apply String.compare_eq_iff in Eab, Ebc. rewrite Eab, Ebc, string_compare_refl.
    rewrite !Z.leb_le. lia.
  - apply String.compare_eq_iff in Eab. rewrite Eab, Ebc. reflexivity.
  - apply String.compare_eq_iff in Ebc. rewrite <- Ebc, Eab. reflexivity.
  - now rewrite (string_compare_trans _ _ _ Eab Ebc).
Qed.

(** X15.  The comparison frame is ordered by state name and then by year,
    and it holds, once each, exactly the observations of the four
    compared states, each with its rank among all the states of its year. *)
Theorem comp_sorted_and_complete (l : list Obs.t) :
  StronglySorted (fun a b => state_year_leb a b = true) (comp l) /\
  Permutation (comp l)
    (map (fun o => Cmp.mk (Obs.state o) (Obs.year o) (Obs.population o) (rank l o))
         (filter (fun o => isin (Obs.state o) compare_states) l)) /\
  forall r, In r (comp l) ->
    In (Cmp.state r) compare_states /\
    exists o, In o l /\ Obs.state o = Cmp.state r /\ Obs.year o = Cmp.year r /\
              Obs.population o = Cmp.population r /\
              Cmp.rank r = 1 + Z.of_nat (count_above (Obs.population o)
                                           (year_pops (Obs.year o) l)).
Proof.
  split; [|split].
  - apply sort_by_sorted; [apply state_year_leb_total | apply state_year_leb_trans].
  - apply sort_by_perm.
  - intros r Hr. apply comp_In in Hr. destruct Hr as (o & Ho & Hs & ->).
    cbn [Cmp.state Cmp.year Cmp.population Cmp.rank]. split.
    + unfold isin in Hs. apply existsb_exists in Hs.
      destruct Hs as (n & Hn & E). apply String.eqb_eq in E. now subst.
    + exists o. repeat split; auto. now apply rank_count.
Qed.

(** X16.  On any frame, the rows exposed for the end-of-series labels are
    exactly the rows whose year is the largest year of the whole frame:
    they all have that one year, a state without a row at that year gets
    no label, and the selection is empty only for an empty frame. *)
Theorem last_pts_global_max (c : list Cmp.t) :
  (forall r, In r (last_pts c) <->
             In r c /\ forall r', In r' c -> Cmp.year r' <= Cmp.year r) /\
  (forall r r', In r (last_pts c) -> In r' (last_pts c) -> Cmp.year r = Cmp.year r') /\
  (last_pts c = [] <-> c = []).
Proof.
  split; [apply last_pts_In|]. split.
  - intros r r' Hr Hr'. apply last_pts_In in Hr, Hr'.
    destruct Hr as [Hr Hmax], Hr' as [Hr' Hmax'].
    specialize (Hmax r' Hr'). specialize (Hmax' r Hr). lia.
  - split.
    + intros E. destruct c as [|x c]; [reflexivity|]. exfalso.
      destruct (last_year_spec (x :: c) x (or_introl eq_refl))
        as (Y & HY & (rY & HrY & HyY) & Hmax).
      assert (Hin : In rY (last_pts (x :: c))).
      { apply last_pts_In. split; [exact HrY|]. intros r' Hr'. rewrite HyY. now apply Hmax. }
      rewrite E in Hin. exact Hin.
    + intros ->. reflexivity.
Qed.


(* ------------------------------------------------------------------ *)
(** ** Number formatting *)

(** The quotient computed by [div_million] is the one IEEE 754 binary64
    division gives, as the standard library specifies it, on a spread of
    2000 numbers from one million to beyond nine billion. *)
Lemma div_million_agrees_with_binary64 :
  forallb
    (fun k =>
       let n := 1000000 + 4567891 * Z.of_nat k in
       match div_million n with
       | Some (m, e) =>
           match SpecFloat.SFdiv 53 1024
                   (SpecFloat.binary_normalize 53 1024 n 0 false)
                   (SpecFloat.binary_normalize 53 1024 1000000 0 false) with
           | SpecFloat.S754_finite false m' e' => (Z.pos m' =? m) && (e' =? e)
           | _ => false
           end
       | None => false
       end)
    (seq 0 2000) = true.
Proof. vm_compute. reflexivity. Qed.

(** X17.  Formatting is symmetric in the sign: the text of a negative
    number is a minus sign followed by the text of its absolute value,
    in every unit, and it fails only if that one does. *)
Theorem fmt_num_negative (n : Z) :
  0 < n ->
  fmt_num (- n) = option_map (String.append "-") (fmt_num n).
Proof.
  intros Hn. unfold fmt_num.
  rewrite Z.abs_opp, (Z.abs_eq n) by lia.
  replace (- n <? 0) with true by (symmetry; apply Z.ltb_lt; lia).
  replace (n <? 0) with false by (symmetry; apply Z.ltb_ge; lia).
  destruct (1000000 <=? n); [|reflexivity].
  destruct (negb (n mod 1000000 =? 0)); [|reflexivity].
  destruct (div_million n) as [[m e]|]; reflexivity.
Qed.

Lemma round_half_even_spec (num den : Z) :
  0 < den -> 2 * Z.abs (round_half_even num den * den - num) <= den.
Proof.
  intros Hd. unfold round_half_even.
  pose proof (Z.div_mod num den ltac:(lia)) as E.
  pose proof (Z.mod_pos_bound num den Hd) as Hr.
  set (q := num / den) in *. set (r := num mod den) in *.
  destruct (2 * r <? den) eqn:E1; [lia|].
  destruct (den <? 2 * r) eqn:E2; [lia|].
  destruct (Z.even q); lia.
Qed.

(** The quotient by a million of an int below 2^53 has a binary exponent
    of at most -19. *)
Lemma div_million_small (a : Z) :
  1000000 <= a < 2 ^ 53 ->
  exists P,
    524288 <= P /\
    div_million a = Some (round_half_even (a * P) 1000000, - Z.log2 P) /\
    P = 2 ^ Z.log2 P /\ 19 <= Z.log2 P /\
    tenths (round_half_even (a * P) 1000000) (- Z.log2 P)
    = round_half_even (10 * round_half_even (a * P) 1000000) P.
Proof.
  intros Ha.
  assert (Hq1 : 1 <= a / 1000000) by (apply Z.div_le_lower_bound; lia).
  assert (Hq2 : a / 1000000 < 2 ^ 34).
  { apply Z.div_lt_upper_bound; [lia|]. change (2 ^ 53) with 9007199254740992 in Ha.
    change (2 ^ 34) with 17179869184. lia. }
  assert (Hlog : 0 <= Z.log2 (a / 1000000) < 34).
  { split; [apply Z.log2_nonneg|]. apply Z.log2_lt_pow2; lia. }
  set (k := Z.log2 (a / 1000000)) in *.
  exists (2 ^ (52 - k)).
  assert (Hl : Z.log2 (2 ^ (52 - k)) = 52 - k) by (apply Z.log2_pow2; lia).
  rewrite Hl.
  assert (HP : 2 ^ 19 <= 2 ^ (52 - k)) by (apply Z.pow_le_mono_r; lia).
  change (2 ^ 19) with 524288 in HP.
  split; [exact HP|]. split; [|split; [reflexivity|split; [lia|]]].
  - unfold div_million. fold k.
    replace (k - 52 <=? 0) with true by (symmetry; apply Z.leb_le; lia).
    replace (0 <? k - 52) with false by (symmetry; apply Z.ltb_ge; lia).
    cbn [andb]. replace (- (k - 52)) with (52 - k) by lia.
    now replace (k - 52) with (- (52 - k)) by lia.
  - unfold tenths.
    replace (0 <=? - (52 - k)) with false by (symmetry; apply Z.leb_gt; lia).
    now replace (- - (52 - k)) with (52 - k) by lia.
Qed.

(** X18.  For a number of at least a million (below 2^53 in absolute
    value) that is not a whole number of millions, the text is the sign,
    a number with one decimal and [" M"], and the number shown is within
    0.05 million of the true value: with [t] the tenths shown,
    [|100000 t - |n|| <= 50000]. *)
Theorem fmt_num_millions_accuracy (n : Z) :
  1000000 <= Z.abs n < 2 ^ 53 ->
  Z.abs n mod 1000000 <> 0 ->
  exists t,
    fmt_num n
    = Some ((if (n <? 0)%Z then "-" else "") ++ format_1f t ++ " M")%string /\
    Z.abs (100000 * t - Z.abs n) <= 50000.
Proof.
  intros Ha Hm. unfold fmt_num.
  set (a := Z.abs n) in *.
  replace (1000000 <=? a) with true by (symmetry; apply Z.leb_le; lia).
  replace (a mod 1000000 =? 0) with false by (symmetry; apply Z.eqb_neq; lia).
  cbn [negb].
  destruct (div_million_small a Ha) as (P & HP & Hdiv & _ & _ & Hten).
  rewrite Hdiv, Hten.
  set (m := round_half_even (a * P) 1000000).
  set (t := round_half_even (10 * m) P).
  exists t. split; [reflexivity|].
  pose proof (round_half_even_spec (a * P) 1000000 ltac:(lia)) as H1. fold m in H1.
  pose proof (round_half_even_spec (10 * m) P ltac:(lia)) as H2. fold t in H2.
  assert (E : 10 * ((100000 * t - a) * P)
              = (t * P - 10 * m) * 1000000 + 10 * (m * 1000000 - a * P)) by ring.
  set (Y := 100000 * t - a) in *.
  set (d2 := t * P - 10 * m) in *. set (d1 := m * 1000000 - a * P) in *.
  destruct (Z.le_gt_cases (Z.abs Y) 50000) as [|Hbig]; [assumption|exfalso].
  destruct (Z.le_gt_cases 0 Y) as [Hy|Hy].
  - assert (50001 * P <= Y * P) by (apply Z.mul_le_mono_nonneg_r; lia). lia.
  - assert (Y * P <= -50001 * P) by (apply Z.mul_le_mono_nonneg_r; lia). lia.
Qed.

(** X21.  On every int64 value the formatting gives a text (the quotient
    by a million never overflows a float), and a value of magnitude below
    one thousand is shown as zero thousands, with its sign: ["0 K"], or
    ["-0 K"] for -999 to -1. *)
Theorem fmt_num_int64 (n : Z) :
  - 2 ^ 63 <= n < 2 ^ 63 ->
  (exists text, fmt_num n = Some text) /\
  (Z.abs n < 1000 ->
   fmt_num n = Some (if (n <? 0)%Z then "-0 K" else "0 K")%string).
Proof.
  intros Hn. change (2 ^ 63) with 9223372036854775808 in Hn. split.
  - unfold fmt_num. set (a := Z.abs n).
    destruct (1000000 <=? a) eqn:Ea; [|eauto].
    destruct (negb (a mod 1000000 =? 0)); [|eauto].
    apply Z.leb_le in Ea.
    assert (Hq1 : 1 <= a / 1000000) by (apply Z.div_le_lower_bound; lia).
    assert (Hq2 : a / 1000000 < 2 ^ 52).
    { apply Z.div_lt_upper_bound; [lia|].
      change (2 ^ 52) with 4503599627370496. lia. }
    assert (Hlog : Z.log2 (a / 1000000) < 52) by (apply Z.log2_lt_pow2; lia).
    unfold div_million.
    replace (0 <? Z.log2 (a / 1000000) - 52) with false
      by (symmetry; apply Z.ltb_ge; lia).
    cbn [andb]. eauto.
  - intros Hsmall. unfold fmt_num.
    replace (1000000 <=? Z.abs n) with false by (symmetry; apply Z.leb_gt; lia).
    rewrite (Z.div_small (Z.abs n) 1000) by lia.
    destruct (n <? 0); reflexivity.
Qed.

(* ------------------------------------------------------------------ *)
(** ** The text columns of the table *)

Lemma py_int_of_int (z : Z) : py_int (F64.of_int z) = Some z.
Proof.
  unfold py_int, F64.of_int. f_equal.
  destruct (Rle_dec 0 (IZR z)) as [H|H].
  - symmetry. apply Int_part_spec. lra.
  - rewrite <- opp_IZR. rewrite <- (Int_part_spec (IZR (- z)) (- z)); [lia | lra].
Qed.

Lemma py_int_stored (z : Z) : py_int (fillna0 (to_float64 z)) = Some (round53 z).
Proof.
  unfold to_float64. cbn [F64.of_int fillna0].
  change (F64.Fin (IZR (round53 z))) with (F64.of_int (round53 z)).
  apply py_int_of_int.
Qed.

Lemma traverse_total {X Y : Type} (f : X -> option Y) (g : X -> Y) (xs : list X) :
  (forall x, In x xs -> f x = Some (g x)) -> traverse f xs = Some (map g xs).
Proof.
  induction xs as [|x xs IH]; intros H; simpl; [reflexivity|].
  rewrite (H x (or_introl eq_refl)), IH; [reflexivity|].
  intros z Hz. apply H. now right.
Qed.

(** X19.  The text of the year-over-year column never fails to build: on
    any series it is the formatted 0 for the first row (its missing change
    is filled with 0) followed, for each later row, by the formatted value
    of the stored change: the int64 difference between its population and
    the one before it, as the float64 that holds it.  When the populations
    lie between 0 and 2^53 that value is exactly the difference. *)
Theorem table_yoy_change_text (r0 : Ny.t) (rest : list Ny.t) :
  table_yoy_change [] = Some [] /\
  table_yoy_change (r0 :: rest)
  = Some (fmt_commas 0
          :: map (fun d => fmt_commas (round53 (wrap64 d)))
                 (deltas (Ny.population r0) (map Ny.population rest))) /\
  (Forall (fun r => 0 <= Ny.population r <= 2 ^ 53) (r0 :: rest) ->
   table_yoy_change (r0 :: rest)
   = Some (fmt_commas 0
           :: map fmt_commas (deltas (Ny.population r0) (map Ny.population rest)))).
Proof.
  assert (Hgen : table_yoy_change (r0 :: rest)
    = Some (fmt_commas 0
            :: map (fun d => fmt_commas (round53 (wrap64 d)))
                   (deltas (Ny.population r0) (map Ny.population rest)))).
  { unfold table_yoy_change. rewrite yoy_change_as_deltas.
    cbn [traverse fillna0].
    replace (py_int (F64.Fin 0)) with (Some 0) by (symmetry; apply (py_int_of_int 0)).
    cbn [option_map].
    rewrite (traverse_total _ (fun x => match py_int (fillna0 x) with
                                        | Some z => fmt_commas z
                                        | None => ""%string
                                        end)).
    - rewrite map_map. do 2 f_equal. apply map_ext. intros z.
      now rewrite py_int_stored.
    - intros x Hx. apply in_map_iff in Hx. destruct Hx as (z & <- & _).
      now rewrite py_int_stored. }
  split; [reflexivity|]. split; [exact Hgen|].
  intros Hb. rewrite Hgen. do 2 f_equal.
  assert (Hd : Forall (fun d => Z.abs d <= 2 ^ 53)
                 (deltas (Ny.population r0) (map Ny.population rest))).
  { apply deltas_bounded.
    change (Ny.population r0 :: map Ny.population rest)
      with (map Ny.population (r0 :: rest)).
    apply Forall_map. exact Hb. }
  clear Hgen Hb.
  induction Hd as [|d ds Hd Hds IH]; [reflexivity|].
  cbn [map]. rewrite IH. f_equal. f_equal.
  assert (E : to_float64 (wrap64 d) = F64.of_int d) by now apply stored_difference_exact.
  unfold to_float64, F64.of_int in E. injection E as E. now apply eq_IZR.
Qed.

(** X20.  Converting the rank column of the New York series to integers
    never fails, whatever the observations: every row has a rank, and the
    ranks are at least 1. *)
Theorem table_rank_defined (l : list Obs.t) :
  exists ks,
    table_rank (ny l) = Some ks /\
    List.length ks = List.length (ny l) /\
    Forall (fun k => 1 <= k) ks.
Proof.
  unfold table_rank.
  assert (Hall : forall r, In r (ny l) ->
            exists k, Ny.rank r = Some k /\ 1 <= k).
  { intros r Hr. apply focus_merged_In in Hr.
    destruct Hr as (o & o' & _ & _ & Ho' & _ & _ & ->). cbn [Ny.rank].
    exists (rank l o'). split; [reflexivity|].
    rewrite (rank_count l o' Ho'). lia. }
  induction (ny l) as [|r s IH].
  - exists []. repeat split. constructor.
  - destruct (Hall r (or_introl eq_refl)) as (k & Hk & Hk1).
    destruct IH as (ks & Hks & Hlen & Hge); [intros; apply Hall; now right|].
    exists (k :: ks). cbn [traverse]. rewrite Hk, Hks.
    split; [reflexivity|]. split; [simpl; now rewrite Hlen | now constructor].
Qed.


(* ------------------------------------------------------------------ *)
(** ** The further properties at the sample frames *)

Lemma sample_nonnegative : Forall (fun o => 0 <= Obs.population o) sample_obs.
Proof.
  unfold sample_obs. repeat (constructor; [cbn; lia|]). constructor.
Qed.

Lemma sample_total_fits : total (map Obs.population sample_obs) < 2 ^ 63.
Proof. vm_compute. reflexivity. Qed.

Lemma us_totals_exact_witness :
  Forall (fun o => 0 <= Obs.population o) sample_obs /\
  total (map Obs.population sample_obs) < 2 ^ 63 /\
  ((forall u, In u (us sample_obs) ->
      Us.us_population u = total (year_pops (Us.year u) sample_obs)) /\
   total (map Us.us_population (us sample_obs)) = total (map Obs.population sample_obs)).
Proof.
  exact (conj sample_nonnegative (conj sample_total_fits
           (us_totals_exact sample_obs sample_nonnegative sample_total_fits))).
Defined.

Lemma rank_range_witness :
  In texas_2011 sample_obs /\
  (1 <= rank sample_obs texas_2011
     <= Z.of_nat (List.length (year_group (Obs.year texas_2011) sample_obs)) /\
   exists top, In top sample_obs /\ Obs.year top = Obs.year texas_2011 /\
               rank sample_obs top = 1).
Proof.
  assert (Ho : In texas_2011 sample_obs) by in_list.
  exact (conj Ho (rank_range sample_obs texas_2011 Ho)).
Defined.

Lemma df_long_shape_witness :
  df_long sample_table = Some sample_obs /\
  (List.length sample_obs
   = (List.length (pop_cols sample_table) * List.length (df_states sample_table))%nat /\
   forall o, In o sample_obs ->
     exists r i c,
       In r (rows sample_table) /\ SUMLEV r = 40 /\
       nth_error (columns sample_table) i = Some c /\
       String.prefix "POPESTIMATE20" c = true /\
       year_of_label c = Some (Obs.year o) /\
       o = Obs.mk (NAME r) (STATE r) (Obs.year o) (nth i (cells r) 0)).
Proof.
  exact (conj df_long_sample (df_long_shape sample_table sample_obs df_long_sample)).
Defined.

Lemma df_long_raises_iff_witness :
  forallb (fun ic => ascii_label (snd ic)) (pop_cols sample_table) = true /\
  (df_long sample_table = None <->
   df_states sample_table <> [] /\
   exists i c, In (i, c) (pop_cols sample_table) /\ year_of_label c = None).
Proof.
  exact (conj eq_refl (df_long_raises_iff sample_table eq_refl)).
Defined.

Lemma year_of_label_convention_witness :
  is_digit "1" = true /\ is_digit "9" = true /\
  (year_of_label ("POPESTIMATE20" ++ String "1" (String "9" ""))
   = Some (2000 + 10 * digit_val "1" + digit_val "9") /\
   2000 <= 2000 + 10 * digit_val "1" + digit_val "9" <= 2099).
Proof.
  exact (conj eq_refl (conj eq_refl
           (year_of_label_convention "1" "9" "" eq_refl eq_refl))).
Defined.

Lemma ny_one_row_per_observation_witness :
  key_unique sample_obs /\
  (map (fun r => (Ny.year r, Ny.population r)) (ny sample_obs) = ny_sorted sample_obs /\
   List.length (ny sample_obs)
   = List.length (filter (fun o => String.eqb (Obs.state o) "New York") sample_obs) /\
   StronglySorted Z.lt (map Ny.year (ny sample_obs))).
Proof.
  exact (conj key_unique_sample (ny_one_row_per_observation sample_obs key_unique_sample)).
Defined.

Lemma yoy_change_telescopes_witness :
  Forall (fun r => 0 <= Ny.population r <= 2 ^ 53) window_series /\
  yoy_change window_series = [F64.NaN; F64.of_int 20; F64.of_int (-10)] /\
  total [20; -10] = 110 - 100.
Proof.
  assert (Hb : Forall (fun r => 0 <= Ny.population r <= 2 ^ 53) window_series).
  { unfold window_series.
    repeat (constructor; [cbn [Ny.population]; split; [lia | vm_compute; discriminate]|]).
    constructor. }
  exact (conj Hb (yoy_change_telescopes _ _ Hb)).
Defined.

(** In the sample series 2019 follows 2011: the change of the 2019 row is
    taken from the 2011 row. *)
Lemma yoy_uses_previous_row_witness :
  nth_error (ny sample_obs) 1 = Some (Ny.mk 2011 120 (Some 640) (Some 2)) /\
  nth_error (ny sample_obs) 2 = Some (Ny.mk 2019 110 (Some 780) (Some 3)) /\
  (nth_error (yoy_change (ny sample_obs)) 2
   = Some (to_float64 (wrap64 (Ny.population (Ny.mk 2019 110 (Some 780) (Some 3))
                               - Ny.population (Ny.mk 2011 120 (Some 640) (Some 2))))) /\
   (Z.abs (Ny.population (Ny.mk 2019 110 (Some 780) (Some 3))
           - Ny.population (Ny.mk 2011 120 (Some 640) (Some 2))) <= 2 ^ 53 ->
    nth_error (yoy_change (ny sample_obs)) 2
    = Some (F64.of_int (Ny.population (Ny.mk 2019 110 (Some 780) (Some 3))
                        - Ny.population (Ny.mk 2011 120 (Some 640) (Some 2)))))).
Proof.
  assert (H1 : nth_error (ny sample_obs) 1 = Some (Ny.mk 2011 120 (Some 640) (Some 2)))
    by (rewrite ny_sample; reflexivity).
  assert (H2 : nth_error (ny sample_obs) 2 = Some (Ny.mk 2019 110 (Some 780) (Some 3)))
    by (rewrite ny_sample; reflexivity).
  exact (conj H1 (conj H2 (yoy_uses_previous_row (ny sample_obs) 1 _ _ H1 H2))).
Defined.

Lemma share_within_0_100_witness :
  Forall (fun o => 0 <= Obs.population o) sample_obs /\
  total (map Obs.population sample_obs) < 2 ^ 63 /\
  In (Ny.mk 2010 100 (Some 690) (Some 3)) (ny sample_obs) /\
  0 < Ny.population (Ny.mk 2010 100 (Some 690) (Some 3)) /\
  exists x, share_row (Ny.mk 2010 100 (Some 690) (Some 3)) = F64.Fin x /\
            (0 < x <= 100)%R.
Proof.
  assert (Hr : In (Ny.mk 2010 100 (Some 690) (Some 3)) (ny sample_obs))
    by (rewrite ny_sample; in_list).
  assert (Hp : 0 < Ny.population (Ny.mk 2010 100 (Some 690) (Some 3))) by (cbn; lia).
  exact (conj sample_nonnegative (conj sample_total_fits (conj Hr (conj Hp
           (share_within_0_100 sample_obs _ sample_nonnegative sample_total_fits Hr Hp))))).
Defined.

Lemma growth_signs_agree_witness :
  base_pop (ny sample_obs) = Some 100 /\
  last_pop (ny sample_obs) = Some 110 /\
  0 < 100 < 2 ^ 63 /\
  0 < 110 < 2 ^ 63 /\
  exists c : R,
    cagr (ny sample_obs) = Some (F64.Fin c) /\
    abs_change_2010_2019 (ny sample_obs) = Some (110 - 100) /\
    (-100 < c)%R /\
    (0 <= 110 - 100 -> (0 <= c)%R) /\
    (110 - 100 <= 0 -> (c <= 0)%R) /\
    (110 - 100 = 0 -> c = 0%R).
Proof.
  assert (Hb : base_pop (ny sample_obs) = Some 100) by (vm_compute; reflexivity).
  assert (He : last_pop (ny sample_obs) = Some 110) by (vm_compute; reflexivity).
  assert (H0 : 0 < 100 < 2 ^ 63) by (split; reflexivity).
  assert (H1 : 0 < 110 < 2 ^ 63) by (split; reflexivity).
  exact (conj Hb (conj He (conj H0 (conj H1
           (growth_signs_agree sample_obs 100 110 Hb He H0 H1))))).
Defined.

Lemma peak_is_first_maximum_witness :
  peak_row tied_series = Some (Ny.mk 2011 7 (Some 7) (Some 1)) /\
  exists i,
    nth_error tied_series i = Some (Ny.mk 2011 7 (Some 7) (Some 1)) /\
    forall j r', (j < i)%nat -> nth_error tied_series j = Some r' ->
                 Ny.population r' < Ny.population (Ny.mk 2011 7 (Some 7) (Some 1)).
Proof.
  exact (conj eq_refl (peak_is_first_maximum tied_series _ eq_refl)).
Defined.

Lemma fmt_num_negative_witness :
  0 < 19453561 /\
  fmt_num (- 19453561) = option_map (String.append "-") (fmt_num 19453561).
Proof.
  assert (H : 0 < 19453561) by reflexivity.
  exact (conj H (fmt_num_negative 19453561 H)).
Defined.

Lemma fmt_num_millions_accuracy_witness :
  1000000 <= Z.abs 19453561 < 2 ^ 53 /\
  Z.abs 19453561 mod 1000000 <> 0 /\
  exists t,
    fmt_num 19453561
    = Some ((if (19453561 <? 0)%Z then "-" else "") ++ format_1f t ++ " M")%string /\
    Z.abs (100000 * t - Z.abs 19453561) <= 50000.
Proof.
  assert (Ha : 1000000 <= Z.abs 19453561 < 2 ^ 53)
    by (split; [vm_compute; discriminate | reflexivity]).
  assert (Hm : Z.abs 19453561 mod 1000000 <> 0) by (vm_compute; discriminate).
  exact (conj Ha (conj Hm (fmt_num_millions_accuracy 19453561 Ha Hm))).
Defined.

Lemma fmt_num_int64_witness :
  - 2 ^ 63 <= - 500 < 2 ^ 63 /\
  ((exists text, fmt_num (- 500) = Some text) /\
   (Z.abs (- 500) < 1000 ->
    fmt_num (- 500) = Some (if (- 500 <? 0)%Z then "-0 K" else "0 K")%string)).
Proof.
  assert (H : - 2 ^ 63 <= - 500 < 2 ^ 63)
    by (split; [vm_compute; discriminate | reflexivity]).
  exact (conj H (fmt_num_int64 (- 500) H)).
Defined.
